(** * mini-rag: the retrieval pipeline of [pdf_processor.py],
      [vector_store.py] and [rag_system.py], embedded in Rocq.

    Python values are modelled as follows.
    - [str] is a list of Unicode code points ([N]); source literals are
      written as UTF-8 byte strings and decoded by [u].
    - [int] is [Z].
    - a [dict] with string keys is a [gmap string pyval]; dictionaries are
      heap objects, so every place where the source shares or copies one
      goes through the object store [heap] (a growing arena of dicts).
    - a raised exception is the [Raise] branch of [result]; a method that
      mutates [self] before raising returns the mutated state next to it. *)

From Stdlib Require Import ZArith List Lia String Ascii Bool.
From stdpp Require Import base gmap list strings pretty sorting.

Open Scope Z_scope.

(** ** Python values and built-ins used by the source *)

Module Py.

Abbreviation str := (list N).

(** UTF-8 decoding of a literal of the source file. *)
Fixpoint utf8 (bs : list N) : str :=
  match bs with
  | [] => []
  | b :: r =>
      if (b <? 0x80)%N then b :: utf8 r
      else if (b <? 0xE0)%N then
        match r with
        | c1 :: r1 => ((b - 0xC0) * 64 + (c1 - 0x80))%N :: utf8 r1
        | _ => []
        end
      else if (b <? 0xF0)%N then
        match r with
        | c1 :: c2 :: r2 =>
            ((b - 0xE0) * 4096 + (c1 - 0x80) * 64 + (c2 - 0x80))%N :: utf8 r2
        | _ => []
        end
      else
        match r with
        | c1 :: c2 :: c3 :: r3 =>
            ((b - 0xF0) * 262144 + (c1 - 0x80) * 4096
             + (c2 - 0x80) * 64 + (c3 - 0x80))%N :: utf8 r3
        | _ => []
        end
  end.

Definition u (s : string) : str :=
  utf8 (map N_of_ascii (list_ascii_of_string s)).

Inductive pyval :=
  | VInt (z : Z)
  | VStr (s : str).

Abbreviation dict := (gmap string pyval).

(** Instances of Python's [Exception]: the class name and [str(e)]. *)
Record exn := Exn { exn_class : string; exn_msg : str }.

Inductive result (A : Type) :=
  | Ok (a : A)
  | Raise (e : exn).
Arguments Ok {A} a.
Arguments Raise {A} e.

Definition is_ok {A} (r : result A) : bool :=
  match r with Ok _ => true | Raise _ => false end.

(** [str.isspace] on one character; the regular expression class [\s]
    of [re] on [str] patterns uses the same table. *)
Definition isspace (c : N) : bool :=
  (((9 <=? c) && (c <=? 13)) || ((28 <=? c) && (c <=? 32))
   || (c =? 0x85) || (c =? 0xA0) || (c =? 0x1680)
   || ((0x2000 <=? c) && (c <=? 0x200A))
   || (c =? 0x2028) || (c =? 0x2029) || (c =? 0x202F)
   || (c =? 0x205F) || (c =? 0x3000))%N.

Fixpoint lstrip (s : str) : str :=
  match s with
  | [] => []
  | c :: r => if isspace c then lstrip r else s
  end.

(** [s.strip()] *)
Definition strip (s : str) : str := rev (lstrip (rev (lstrip s))).

Definition flush (cur : str) : list str :=
  match cur with [] => [] | _ => [rev cur] end.

(** [re.findall(r'\S+', s)], scanning left to right; [cur] holds the
    characters of the match in progress, last one first. *)
Fixpoint findall_nonspace (cur : str) (s : str) : list str :=
  match s with
  | [] => flush cur
  | c :: r =>
      if isspace c then flush cur ++ findall_nonspace [] r
      else findall_nonspace (c :: cur) r
  end.

(** [sep.join(ws)] *)
Fixpoint join (sep : str) (ws : list str) : str :=
  match ws with
  | [] => []
  | [w] => w
  | w :: rest => w ++ sep ++ join sep rest
  end.

Definition len {A} (l : list A) : Z := Z.of_nat (length l).

(** Normalisation of one bound of a slice [l[lo:hi]] on a sequence of
    length [n]: negative bounds count from the end, all are clamped. *)
Definition slice_bound (n i : Z) : Z :=
  if i <? 0 then Z.max 0 (i + n) else Z.min i n.

Definition slice {A} (l : list A) (lo hi : Z) : list A :=
  let a := slice_bound (len l) lo in
  let b := slice_bound (len l) hi in
  take (Z.to_nat (b - a)) (drop (Z.to_nat a) l).

(** [range(start, stop, step)] as the list it iterates over. *)
Definition range (start stop step : Z) : result (list Z) :=
  if step =? 0 then
    Raise (Exn "ValueError" (u "range() arg 3 must not be zero"))
  else
    let n :=
      if 0 <? step then
        (if start <? stop then (stop - start - 1) / step + 1 else 0)
      else
        (if stop <? start then (start - stop - 1) / (- step) + 1 else 0) in
    Ok (map (fun j => start + Z.of_nat j * step) (seq 0 (Z.to_nat n))).

(** [d[k]] *)
Definition getitem (d : dict) (k : string) : result pyval :=
  match d !! k with
  | Some v => Ok v
  | None => Raise (Exn "KeyError" (u "'" ++ u k ++ u "'"))
  end.

End Py.
Import Py.

(** ** Objects, effects and the external collaborators *)

(** The object store: [dict] objects live in an arena and are named by
    their position; [alloc] is what a dict display or [dict.copy()] does,
    and an assignment [d[k] = v] rewrites the object in place. *)
Module Heap.

Abbreviation loc := nat.
Abbreviation heap := (list dict).

Definition alloc (d : dict) (h : heap) : loc * heap := (length h, h ++ [d]).

Fixpoint alloc_all (ds : list dict) (h : heap) : list loc * heap :=
  match ds with
  | [] => ([], h)
  | d :: rest =>
      let '(l, h1) := alloc d h in
      let '(ls, h2) := alloc_all rest h1 in
      (l :: ls, h2)
  end.

(** [obj[k] = v] *)
Definition setitem (l : loc) (k : string) (v : pyval) (h : heap) : heap :=
  alter (fun d : dict => <[k:=v]> d) l h.

End Heap.
Import Heap.

(** Code that mutates state and may raise: the state reached before the
    exception is kept, as in Python. *)
Definition M (S A : Type) : Type := S -> result A * S.

Definition ret {S A} (a : A) : M S A := fun s => (Ok a, s).
Definition raise {S A} (e : exn) : M S A := fun s => (Raise e, s).
Definition lift {S A} (r : result A) : M S A := fun s => (r, s).
Definition bind {S A B} (m : M S A) (f : A -> M S B) : M S B :=
  fun s =>
    match m s with
    | (Ok a, s1) => f a s1
    | (Raise e, s1) => (Raise e, s1)
    end.
Definition get {S} : M S S := fun s => (Ok s, s).
Definition modify {S} (f : S -> S) : M S unit := fun s => (Ok tt, f s).

(** [try: body except Exception as e: handler(e)] *)
Definition try_except {S A} (body : M S A) (handler : exn -> M S A) : M S A :=
  fun s =>
    match body s with
    | (Ok a, s1) => (Ok a, s1)
    | (Raise e, s1) => handler e s1
    end.

Declare Scope py_scope.
Delimit Scope py_scope with py.
Notation "x <- m ;; k" := (bind m (fun x => k))
  (at level 100, m at next level, right associativity) : py_scope.
Notation "m ;; k" := (bind m (fun _ => k))
  (at level 100, right associativity) : py_scope.
Open Scope py_scope.

(** [ [f(x) for x in xs] ], stopping at the first exception. *)
Fixpoint for_each {S A B} (f : A -> M S B) (xs : list A) : M S (list B) :=
  match xs with
  | [] => ret []
  | x :: rest => y <- f x ;; ys <- for_each f rest ;; ret (y :: ys)
  end.

(** A similarity score is a float32; it is represented by the integer
    [s] such that the float is [s * 2^-149] (every finite float32 is such
    a multiple), which keeps order and equality. *)
Abbreviation score := Z (only parsing).

(** The libraries the three classes call into. Their code is not part of
    the repository; each field is one call of the source.
    - [SentenceTransformer], [get_sentence_embedding_dimension] and
      [encode]: the sentence-transformers model; [encode] yields the rows
      of the embedding matrix.
    - [normalize_L2] and [flat_search]: FAISS; [normalize_L2 x] is the
      call [faiss.normalize_L2(x)] on the whole array: the normalised
      rows, or the exception raised for an array that is not a matrix,
      as the result of [encode] on an empty batch is;
      [flat_search d xb q k] is
      [IndexFlatIP.search] on an index of dimension [d] holding the rows
      [xb], and returns [zip(scores[0], indices[0])].
    - [pipeline] and [generate]: the transformers text2text pipeline;
      [generate g prompt] is [g(prompt, ...)[0]['generated_text']].
    - [extract_text_from_pdf]: PyMuPDF with the PyPDF2 fallback.
    - [round3 s] is [round(s, 3)]. *)
Class Backend := {
  vec : Type;
  model : Type;
  text2text : Type;
  SentenceTransformer : str -> result model;
  get_sentence_embedding_dimension : model -> Z;
  encode : model -> list pyval -> result (list vec);
  vdim : vec -> Z;
  normalize_L2 : list vec -> result (list vec);
  flat_search : Z -> list vec -> vec -> Z -> result (list (score * Z));
  pipeline : str -> str -> result text2text;
  generate : text2text -> str -> result str;
  extract_text_from_pdf : str -> result str;
  round3 : score -> score;
}.

(** ** pdf_processor.py *)

Module PDFProcessor.

(** The attributes that the text pipeline reads. The choice between
    PyMuPDF and PyPDF2 ([use_pymupdf]) is part of the extraction, which is
    the backend's [extract_text_from_pdf]. *)
Record t := { chunk_size : Z; overlap : Z }.

(** [PDFProcessor()] with the defaults of [__init__]. *)
Definition default : t := {| chunk_size := 500; overlap := 50 |}.

(** [re.sub(p+, r, s)] for a character class [p]: every maximal run of
    characters of the class becomes one [r]; [in_run] tells whether the
    previous character was in the class. *)
Fixpoint squeeze (p : N -> bool) (r : N) (in_run : bool) (s : str) : str :=
  match s with
  | [] => []
  | c :: rest =>
      if p c then
        (if in_run then squeeze p r true rest else r :: squeeze p r true rest)
      else c :: squeeze p r false rest
  end.

(** [s.split(sep)] for a one-character separator. *)
Fixpoint split_on (sep : N) (cur : str) (s : str) : list str :=
  match s with
  | [] => [rev cur]
  | c :: rest =>
      if (c =? sep)%N then rev cur :: split_on sep [] rest
      else split_on sep (c :: cur) rest
  end.

(** The class [[\x00-\x08\x0b\x0c\x0e-\x1f\x7f-\x9f]]. *)
Definition is_control (c : N) : bool :=
  ((c <=? 0x08) || (c =? 0x0b) || (c =? 0x0c)
   || ((0x0e <=? c) && (c <=? 0x1f)) || ((0x7f <=? c) && (c <=? 0x9f)))%N.

Definition clean_text (text : str) : str :=
  match strip text with
  | [] => []
  | _ =>
      let text := squeeze (N.eqb 10) 10%N false text in
      let text := squeeze (fun c => (c =? 32) || (c =? 9))%N 32%N false text in
      let text := filter (fun c => is_control c = false) text in
      let lines := split_on 10 [] text in
      let cleaned_lines := filter (fun l => 3 <= len l) (map strip lines) in
      join [10%N] cleaned_lines
  end.

Definition chunk_info (text : str) (chunk_id start_word end_word
                                     word_count char_count : Z) : dict :=
  list_to_map
    [ ("text"%string, VStr text);
      ("chunk_id"%string, VInt chunk_id);
      ("start_word"%string, VInt start_word);
      ("end_word"%string, VInt end_word);
      ("word_count"%string, VInt word_count);
      ("char_count"%string, VInt char_count) ].

(** The chunk appended by one iteration of the sliding-window loop;
    [chunk_id] is [len(chunks)] at that point. *)
Definition window (self : t) (words : list str) (chunk_id i : Z) : dict :=
  let chunk_words := slice words i (i + chunk_size self) in
  let chunk_text := join (u " ") chunk_words in
  chunk_info chunk_text chunk_id i
             (Z.min (i + chunk_size self) (len words))
             (len chunk_words) (len chunk_text).

(** The body of [for i in range(...)], with its [break]. *)
Fixpoint windows (self : t) (words : list str) (idxs : list Z)
    (chunks : list dict) : list dict :=
  match idxs with
  | [] => chunks
  | i :: rest =>
      let chunks' := chunks ++ [window self words (len chunks) i] in
      if len words <=? i + chunk_size self then chunks'
      else windows self words rest chunks'
  end.

Definition create_chunks (self : t) (text : str) : result (list dict) :=
  match strip text with
  | [] => Ok []
  | _ =>
      let words := findall_nonspace [] text in
      if len words <=? chunk_size self then
        Ok [chunk_info text 0 0 (len words) (len words) (len text)]
      else
        match range 0 (len words) (chunk_size self - overlap self) with
        | Raise e => Raise e
        | Ok idxs => Ok (windows self words idxs [])
        end
  end.

(** Reading an integer entry of a chunk dict. *)
Definition int_field (k : string) (c : dict) : option Z :=
  match c !! k with
  | Some (VInt z) => Some z
  | _ => None
  end.

(** The fields of a chunk built by the sliding window. *)
Definition well_formed (T : Z) (j : nat) (c : dict) : Prop :=
  exists s e,
    int_field "chunk_id" c = Some (Z.of_nat j)
    /\ int_field "start_word" c = Some s
    /\ int_field "end_word" c = Some e
    /\ int_field "word_count" c = Some (e - s)
    /\ e <= T.

(** The chunk at position [j] of the sliding window, in closed form. *)
Definition nth_window (self : t) (words : list str) (j : nat) : dict :=
  window self words (Z.of_nat j)
         (Z.of_nat j * (chunk_size self - overlap self)).

(** The window of chunk [j] reaches the last token: the loop breaks. *)
Definition reaches_end (self : t) (words : list str) (j : nat) : Prop :=
  len words <= Z.of_nat j * (chunk_size self - overlap self) + chunk_size self.

(** The token range [[s, e)] recorded in a chunk. *)
Definition span (c : dict) (s e : Z) : Prop :=
  int_field "start_word" c = Some s /\ int_field "end_word" c = Some e.

(** The part of the result of [process_pdf] that its caller reads. *)
Record processed := {
  raw_text : str;
  cleaned_text : str;
  chunks : list dict;
  success : bool;
}.

Definition process_pdf {B : Backend} (self : t) (pdf_path : str)
  : result processed :=
  match extract_text_from_pdf pdf_path with
  | Raise e => Raise e
  | Ok raw =>
      match strip raw with
      | [] => Ok {| raw_text := raw; cleaned_text := [];
                    chunks := []; success := false |}
      | _ =>
          let cleaned := clean_text raw in
          match create_chunks self cleaned with
          | Raise e => Raise e
          | Ok cs => Ok {| raw_text := raw; cleaned_text := cleaned;
                           chunks := cs; success := true |}
          end
      end
  end.

End PDFProcessor.


(** ** vector_store.py *)

Module VectorStore.
Section WithBackend.
Context {B : Backend}.

(** [faiss.IndexFlatIP]: the dimension and the stored rows, in insertion
    order; the label of a row is its position. *)
Record IndexFlatIP := { d : Z; xb : list vec }.

Definition ntotal (ix : IndexFlatIP) : Z := len (xb ix).

Definition new_IndexFlatIP (dimension : option Z) : result IndexFlatIP :=
  match dimension with
  | Some n => Ok {| d := n; xb := [] |}
  | None => Raise (Exn "TypeError" (u "in method 'new_IndexFlatIP'"))
  end.

(** [index.add(x)]; the wrapper asserts that the rows have the dimension
    of the index. *)
Definition add (ix : IndexFlatIP) (x : list vec) : result IndexFlatIP :=
  if forallb (fun v => vdim v =? d ix) x
  then Ok {| d := d ix; xb := xb ix ++ x |}
  else Raise (Exn "AssertionError" []).

(** [index.search(x, k)] followed by the selection of row 0 of both
    returned arrays. *)
Definition search_row0 (ix : IndexFlatIP) (x : list vec) (k : Z)
  : result (list (score * Z)) :=
  if forallb (fun v => vdim v =? d ix) x then
    match x with
    | q :: _ => flat_search (d ix) (xb ix) q k
    | [] => Raise (Exn "IndexError"
                     (u "index 0 is out of bounds for axis 0 with size 0"))
    end
  else Raise (Exn "AssertionError" []).

(** The attributes of a [VectorStore]. [chunks] is the list of the chunk
    objects, by reference. *)
Record t := {
  model_name : str;
  embedding_model : option model;
  index : option IndexFlatIP;
  chunks : list loc;
  dimension : option Z;
}.

Record world := { self : t; objs : heap }.

Definition set_self (f : t -> t) (w : world) : world :=
  {| self := f (self w); objs := objs w |}.

Definition set_model_name (v : str) (s : t) : t :=
  {| model_name := v; embedding_model := embedding_model s;
     index := index s; chunks := chunks s; dimension := dimension s |}.
Definition set_embedding_model (v : option model) (s : t) : t :=
  {| model_name := model_name s; embedding_model := v;
     index := index s; chunks := chunks s; dimension := dimension s |}.
Definition set_index (v : option IndexFlatIP) (s : t) : t :=
  {| model_name := model_name s; embedding_model := embedding_model s;
     index := v; chunks := chunks s; dimension := dimension s |}.
Definition set_chunks (v : list loc) (s : t) : t :=
  {| model_name := model_name s; embedding_model := embedding_model s;
     index := index s; chunks := v; dimension := dimension s |}.
Definition set_dimension (v : option Z) (s : t) : t :=
  {| model_name := model_name s; embedding_model := embedding_model s;
     index := index s; chunks := chunks s; dimension := v |}.

Definition default_model_name : str :=
  u "sentence-transformers/all-mpnet-base-v2".

Definition init (name : str) : t :=
  {| model_name := name; embedding_model := None; index := None;
     chunks := []; dimension := None |}.

(** Reading the dict behind a reference. References held by a program
    always point into the store; the other branch is never taken from a
    well-formed world. *)
Definition deref (l : loc) : M world dict :=
  fun w =>
    match objs w !! l with
    | Some dct => (Ok dct, w)
    | None => (Raise (Exn "ReferenceError" []), w)
    end.

(** [obj.copy()] *)
Definition copy (l : loc) : M world loc :=
  dct <- deref l ;;
  fun w =>
    let '(l', h) := alloc dct (objs w) in
    (Ok l', {| self := self w; objs := h |}).

(** [seq[i]] on a list *)
Definition list_getitem {A} (l : list A) (i : Z) : result A :=
  let j := if i <? 0 then i + len l else i in
  match (if 0 <=? j then l !! Z.to_nat j else None) with
  | Some a => Ok a
  | None => Raise (Exn "IndexError" (u "list index out of range"))
  end.

Definition load_embedding_model : M world unit :=
  w <- get ;;
  match embedding_model (self w) with
  | Some _ => ret tt
  | None =>
      m <- lift (SentenceTransformer (model_name (self w))) ;;
      modify (set_self (set_embedding_model (Some m))) ;;
      modify (set_self
                (set_dimension (Some (get_sentence_embedding_dimension m))))
  end.

(** [self.embedding_model.encode(texts, ...)] *)
Definition model_encode (texts : list pyval) : M world (list vec) :=
  w <- get ;;
  match embedding_model (self w) with
  | Some m => lift (encode m texts)
  | None =>
      raise (Exn "AttributeError"
               (u "'NoneType' object has no attribute 'encode'"))
  end.

Definition create_embeddings (texts : list pyval) : M world (list vec) :=
  w <- get ;;
  (match embedding_model (self w) with
   | None => load_embedding_model
   | Some _ => ret tt
   end) ;;
  model_encode texts.

Definition build_index (cs : list loc) : M world unit :=
  modify (set_self (set_chunks cs)) ;;
  texts <- for_each (fun c => dct <- deref c ;; lift (getitem dct "text")) cs ;;
  embeddings <- create_embeddings texts ;;
  w <- get ;;
  ix <- lift (new_IndexFlatIP (dimension (self w))) ;;
  modify (set_self (set_index (Some ix))) ;;
  embeddings <- lift (normalize_L2 embeddings) ;;
  ix1 <- lift (add ix embeddings) ;;
  modify (set_self (set_index (Some ix1))).

(** The loop over [zip(scores[0], indices[0])]: the entries labelled -1
    are skipped, every other one yields a copy of the chunk at that
    position of [self.chunks], with its score. *)
Fixpoint collect (r : list (score * Z)) : M world (list (loc * score)) :=
  match r with
  | [] => ret []
  | (s, idx) :: rest =>
      if idx =? -1 then collect rest
      else
        w <- get ;;
        c <- lift (list_getitem (chunks (self w)) idx) ;;
        chunk <- copy c ;;
        results <- collect rest ;;
        ret ((chunk, s) :: results)
  end.

Definition search (query : str) (k : Z) : M world (list (loc * score)) :=
  w <- get ;;
  match index (self w) with
  | None =>
      raise (Exn "ValueError"
               (u "Index non construit. Appelez build_index() d'abord."))
  | Some _ =>
      (match embedding_model (self w) with
       | None => load_embedding_model
       | Some _ => ret tt
       end) ;;
      query_embedding <- model_encode [VStr query] ;;
      query_embedding <- lift (normalize_L2 query_embedding) ;;
      w <- get ;;
      match index (self w) with
      | None =>
          raise (Exn "AttributeError"
                   (u "'NoneType' object has no attribute 'search'"))
      | Some ix =>
          r <- lift (search_row0 ix query_embedding k) ;;
          collect r
      end
  end.

(** The model that [create_embeddings] and [search] end up using: the
    loaded one, or the one [load_embedding_model] loads. *)
Definition the_model (s : t) : result model :=
  match embedding_model s with
  | Some m => Ok m
  | None => SentenceTransformer (model_name s)
  end.

(** The store once model [m] is the loaded one. *)
Definition loaded (m : model) (w : world) : world :=
  match embedding_model (self w) with
  | Some _ => w
  | None =>
      set_self (set_dimension (Some (get_sentence_embedding_dimension m)))
               (set_self (set_embedding_model (Some m)) w)
  end.

(** [dimension] is the dimension of the loaded model, as
    [load_embedding_model] leaves it. *)
Definition consistent (s : t) : Prop :=
  forall m, embedding_model s = Some m ->
            dimension s = Some (get_sentence_embedding_dimension m).

(** Every chunk reference of the store points into the object store. *)
Definition valid_refs (w : world) : bool :=
  forallb (fun l => (l <? length (objs w))%nat) (chunks (self w)).

(** What the loop of [search] reads: the dict of the chunk at each
    reported label, in a given object store. *)
Fixpoint gather (cs : list loc) (h : heap) (r : list (score * Z))
  : result (list (dict * score)) :=
  match r with
  | [] => Ok []
  | (s, idx) :: rest =>
      if idx =? -1 then gather cs h rest
      else
        match list_getitem cs idx with
        | Raise e => Raise e
        | Ok c =>
            match h !! c with
            | None => Raise (Exn "ReferenceError" [])
            | Some dct =>
                match gather cs h rest with
                | Raise e => Raise e
                | Ok ds => Ok ((dct, s) :: ds)
                end
            end
        end
  end.

(** What [pickle.load] gives for a readable pickle. The dict written by
    [save_index] has the three keys [chunks], [model_name] and
    [dimension]; a dict written otherwise may lack some of them, and any
    other object is given with the exception that subscripting it by a
    string raises. *)
Inductive pickled :=
  | PickledDict (pk_chunks : option (list dict))
                (pk_model_name : option str)
                (pk_dimension : option (option Z))
  | PickledObject (e : exn).

(** The files: the two artifacts of a saved index, and any other
    content, given with the exceptions that [faiss.read_index] and
    [pickle.load] raise on it (an empty file makes [pickle.load] raise
    [EOFError]). *)
Inductive file :=
  | FaissFile (ix : IndexFlatIP)
  | PickleFile (obj : pickled)
  | OtherFile (faiss_error pickle_error : exn).

Abbreviation disk := (gmap str file).

(** [faiss.read_index] and [pickle.load] on the content of a file. *)
Definition read_index (f : file) : result IndexFlatIP :=
  match f with
  | FaissFile ix => Ok ix
  | PickleFile _ => Raise (Exn "RuntimeError" (u "Error in faiss::read_index"))
  | OtherFile e _ => Raise e
  end.

Definition pickle_load (f : file) : result pickled :=
  match f with
  | PickleFile obj => Ok obj
  | FaissFile _ => Raise (Exn "UnpicklingError" (u "invalid load key"))
  | OtherFile _ e => Raise e
  end.

(** [metadata[k]] for the three keys that [load_index] reads. *)
Definition key_error (k : string) : exn :=
  Exn "KeyError" (u "'" ++ u k ++ u "'").

Definition metadata_chunks (obj : pickled) : result (list dict) :=
  match obj with
  | PickledDict (Some cs) _ _ => Ok cs
  | PickledDict None _ _ => Raise (key_error "chunks")
  | PickledObject e => Raise e
  end.

Definition metadata_model_name (obj : pickled) : result str :=
  match obj with
  | PickledDict _ (Some name) _ => Ok name
  | PickledDict _ None _ => Raise (key_error "model_name")
  | PickledObject e => Raise e
  end.

Definition metadata_dimension (obj : pickled) : result (option Z) :=
  match obj with
  | PickledDict _ _ (Some dim) => Ok dim
  | PickledDict _ _ None => Raise (key_error "dimension")
  | PickledObject e => Raise e
  end.

Definition save_index (fs : disk) (filepath : str) : M world disk :=
  w <- get ;;
  match index (self w) with
  | None => raise (Exn "ValueError" (u "Aucun index à sauvegarder"))
  | Some ix =>
      let fs1 := <[filepath ++ u ".faiss" := FaissFile ix]> fs in
      cs <- for_each deref (chunks (self w)) ;;
      let metadata := PickledDict (Some cs) (Some (model_name (self w)))
                                  (Some (dimension (self w))) in
      ret (<[filepath ++ u ".pkl" := PickleFile metadata]> fs1)
  end.

Definition load_index (fs : disk) (filepath : str) : M world unit :=
  (match fs !! (filepath ++ u ".faiss") with
   | Some f =>
       ix <- lift (read_index f) ;;
       modify (set_self (set_index (Some ix)))
   | None =>
       raise (Exn "FileNotFoundError"
                (u "Index non trouvé: " ++ filepath ++ u ".faiss"))
   end) ;;
  match fs !! (filepath ++ u ".pkl") with
  | Some f =>
      metadata <- lift (pickle_load f) ;;
      cs <- lift (metadata_chunks metadata) ;;
      (fun w =>
         let '(ls, h) := alloc_all cs (objs w) in
         (Ok tt, {| self := set_chunks ls (self w); objs := h |})) ;;
      name <- lift (metadata_model_name metadata) ;;
      modify (set_self (set_model_name name)) ;;
      dim <- lift (metadata_dimension metadata) ;;
      modify (set_self (set_dimension dim))
  | None =>
      raise (Exn "FileNotFoundError"
               (u "Métadonnées non trouvées: " ++ filepath ++ u ".pkl"))
  end.

End WithBackend.
End VectorStore.

(** ** rag_system.py *)

Module RAGSystem.
Section WithBackend.
Context {B : Backend}.

Record t := {
  embedding_model_name : str;
  generation_model_name : str;
  device : str;
  pdf_processor : PDFProcessor.t;
  vector_store : VectorStore.t;
  generator : option text2text;
  is_ready : bool;
  current_pdf : option str;
}.

Record world := { self : t; objs : heap }.

Definition set_self (f : t -> t) (w : world) : world :=
  {| self := f (self w); objs := objs w |}.

Definition set_vector_store (v : VectorStore.t) (s : t) : t :=
  {| embedding_model_name := embedding_model_name s;
     generation_model_name := generation_model_name s;
     device := device s; pdf_processor := pdf_processor s;
     vector_store := v; generator := generator s;
     is_ready := is_ready s; current_pdf := current_pdf s |}.
Definition set_generator (v : option text2text) (s : t) : t :=
  {| embedding_model_name := embedding_model_name s;
     generation_model_name := generation_model_name s;
     device := device s; pdf_processor := pdf_processor s;
     vector_store := vector_store s; generator := v;
     is_ready := is_ready s; current_pdf := current_pdf s |}.
Definition set_is_ready (v : bool) (s : t) : t :=
  {| embedding_model_name := embedding_model_name s;
     generation_model_name := generation_model_name s;
     device := device s; pdf_processor := pdf_processor s;
     vector_store := vector_store s; generator := generator s;
     is_ready := v; current_pdf := current_pdf s |}.
Definition set_current_pdf (v : option str) (s : t) : t :=
  {| embedding_model_name := embedding_model_name s;
     generation_model_name := generation_model_name s;
     device := device s; pdf_processor := pdf_processor s;
     vector_store := vector_store s; generator := generator s;
     is_ready := is_ready s; current_pdf := v |}.

(** [RAGSystem(embedding_model, generation_model, device)] *)
Definition init (embedding_model generation_model dev : str) : t :=
  {| embedding_model_name := embedding_model;
     generation_model_name := generation_model;
     device := dev;
     pdf_processor := PDFProcessor.default;
     vector_store := VectorStore.init embedding_model;
     generator := None;
     is_ready := false;
     current_pdf := None |}.

(** A method call on [self.vector_store]. *)
Definition in_vector_store {A} (m : M VectorStore.world A) : M world A :=
  fun w =>
    let '(r, vw) := m {| VectorStore.self := vector_store (self w);
                         VectorStore.objs := objs w |} in
    (r, {| self := set_vector_store (VectorStore.self vw) (self w);
           objs := VectorStore.objs vw |}).

(** The dict objects built by [create_chunks] enter the store. *)
Definition new_objects (ds : list dict) : M world (list loc) :=
  fun w =>
    let '(ls, h) := alloc_all ds (objs w) in
    (Ok ls, {| self := self w; objs := h |}).

Definition deref (l : loc) : M world dict :=
  fun w =>
    match objs w !! l with
    | Some dct => (Ok dct, w)
    | None => (Raise (Exn "ReferenceError" []), w)
    end.

Definition load_generation_model : M world unit :=
  w <- get ;;
  match generator (self w) with
  | Some _ => ret tt
  | None =>
      g <- lift (pipeline (generation_model_name (self w)) (device (self w))) ;;
      modify (set_self (set_generator (Some g)))
  end.

Record stats := { pdf_path : str; nb_chunks : Z; stats_status : str }.

(** The [try] block of [load_pdf]. *)
Definition load_pdf_body (path : str) : M world stats :=
  w <- get ;;
  result <- lift (PDFProcessor.process_pdf (pdf_processor (self w)) path) ;;
  chunks <- new_objects (PDFProcessor.chunks result) ;;
  in_vector_store (VectorStore.build_index chunks) ;;
  modify (set_self (set_current_pdf (Some path))) ;;
  modify (set_self (set_is_ready true)) ;;
  ret {| pdf_path := path; nb_chunks := len chunks;
         stats_status := u "Prêt pour les questions" |}.

Definition load_pdf (path : str) : M world stats :=
  try_except (load_pdf_body path)
             (fun e =>
                modify (set_self (set_is_ready false)) ;;
                raise e).

(** [sep.join(items)] on arbitrary values: every item must be a [str]. *)
Fixpoint join_values (sep : str) (i : Z) (items : list pyval) : result str :=
  match items with
  | [] => Ok []
  | v :: rest =>
      match v with
      | VInt _ =>
          Raise (Exn "TypeError"
                   (u "sequence item " ++ u (pretty i)
                    ++ u ": expected str instance, int found"))
      | VStr s =>
          match join_values sep (i + 1) rest with
          | Raise e => Raise e
          | Ok r => Ok (match rest with [] => s | _ => s ++ sep ++ r end)
          end
      end
  end.

Definition sentinel : str :=
  u "Je ne trouve pas cette information dans le document.".

Definition create_prompt (question : str) (context_chunks : list loc)
  : M world str :=
  context_texts <-
    for_each (fun c => dct <- deref c ;; lift (getitem dct "text"))
             context_chunks ;;
  context <- lift (join_values [10; 10]%N 0 context_texts) ;;
  ret (u "Contexte: " ++ context ++ [10; 10]%N
       ++ u "Question: " ++ question ++ [10; 10]%N
       ++ u "Réponds à la question en te basant uniquement sur le contexte fourni. Si la réponse n'est pas dans le contexte, dis "
       ++ [34%N] ++ sentinel ++ [34%N] ++ [10; 10]%N
       ++ u "Réponse:").

(** One entry of ["sources"] and the response dict; the keys that a
    response may lack are options. *)
Record source := { src_chunk_id : pyval; src_text : str; src_score : score }.

Record response := {
  answer : str;
  sources : list source;
  question_key : option str;
  status : option str;
  error : option str;
}.

(** [chunk['text'][:200] + "..." if len(chunk['text']) > 200 else chunk['text']] *)
Definition source_text (v : pyval) : result str :=
  match v with
  | VStr s => Ok (if 200 <? len s then slice s 0 200 ++ u "..." else s)
  | VInt _ => Raise (Exn "TypeError" (u "object of type 'int' has no len()"))
  end.

Fixpoint format_sources (i : Z) (rs : list (loc * score))
  : M world (list source) :=
  match rs with
  | [] => ret []
  | (chunk, s) :: rest =>
      dct <- deref chunk ;;
      text <- lift (getitem dct "text") ;;
      text <- lift (source_text text) ;;
      let src := {| src_chunk_id := default (VInt i) (dct !! "chunk_id"%string);
                    src_text := text;
                    src_score := round3 s |} in
      srcs <- format_sources (i + 1) rest ;;
      ret (src :: srcs)
  end.

Definition no_pdf_response : response :=
  {| answer := u "Aucun PDF chargé. Veuillez d'abord charger un document.";
     sources := []; question_key := None; status := None;
     error := Some (u "no_pdf_loaded") |}.

Definition no_content_response : response :=
  {| answer := u "Aucun contenu pertinent trouvé dans le document.";
     sources := []; question_key := None; status := None;
     error := Some (u "no_relevant_content") |}.

Definition error_response (e : exn) : response :=
  {| answer := u "Erreur lors de la génération: " ++ exn_msg e;
     sources := []; question_key := None; status := None;
     error := Some (u "generation_error") |}.

(** [self.generator(prompt, max_length=256, num_return_sequences=1)] and
    the selection of the generated text. *)
Definition call_generator (prompt : str) : M world str :=
  w <- get ;;
  match generator (self w) with
  | Some g => lift (generate g prompt)
  | None =>
      raise (Exn "TypeError" (u "'NoneType' object is not callable"))
  end.

(** The [try] block of [generate_answer]. *)
Definition answer_body (question : str) (max_context_chunks : Z)
  : M world response :=
  w <- get ;;
  (match generator (self w) with
   | None => load_generation_model
   | Some _ => ret tt
   end) ;;
  search_results <-
    in_vector_store (VectorStore.search question max_context_chunks) ;;
  match search_results with
  | [] => ret no_content_response
  | _ =>
      let context_chunks := map fst search_results in
      prompt <- create_prompt question context_chunks ;;
      generated <- call_generator prompt ;;
      let answer := strip generated in
      srcs <- format_sources 0 search_results ;;
      ret {| answer := answer; sources := srcs;
             question_key := Some question;
             status := Some (u "success"); error := None |}
  end.

Definition generate_answer (question : str) (max_context_chunks : Z)
  : M world response :=
  w <- get ;;
  if negb (is_ready (self w)) then ret no_pdf_response
  else
    try_except (answer_body question max_context_chunks)
               (fun e => ret (error_response e)).

End WithBackend.
End RAGSystem.

(** ** What the code relies on from FAISS

    [IndexFlatIP.search] with [k > 0] on a query of the index's
    dimension returns, for each query row, exactly [k] entries; an entry
    is a stored row's label with its inner product, or the label -1 when
    fewer than [k] rows are stored; no label is reported twice and the
    reported rows come by non-increasing score. The order among equal
    scores and the behaviour for [k <= 0] are not part of it. *)
Definition reported (e : score * Z) : Prop := snd e <> -1.

#[global] Instance reported_dec e : Decision (reported e).
Proof. unfold reported. apply _. Defined.

Record flat_contract (B : Backend) : Prop := {
  fc_total : forall dim xb q k,
    0 < k -> vdim q = dim -> is_ok (flat_search dim xb q k) = true;
  fc_shape : forall dim xb q k r,
    0 < k -> flat_search dim xb q k = Ok r -> len r = k;
  fc_labels : forall dim xb q k r,
    0 < k -> flat_search dim xb q k = Ok r ->
    Forall (fun e => snd e = -1 \/ 0 <= snd e < len xb) r;
  fc_distinct : forall dim xb q k r,
    0 < k -> flat_search dim xb q k = Ok r ->
    NoDup (map snd (filter reported r));
  fc_sorted : forall dim xb q k r,
    0 < k -> flat_search dim xb q k = Ok r ->
    StronglySorted (fun a b : score => b <= a)
                   (map fst (filter reported r));
}.

(** ** A small executable backend

    Integer vectors with the exact inner product stand for the float
    rows; it is used to run the three classes on concrete inputs. *)
Module Reference.

Definition sum_codes (s : str) : Z := Z.of_N (foldr N.add 0%N s).

(** The embedding of one text by the model of dimension [dim]. *)
Definition embed (dim : Z) (v : pyval) : result (list Z) :=
  match v with
  | VStr s => Ok (take (Z.to_nat dim) [len s; sum_codes s; 1; 1])
  | VInt _ => Raise (Exn "TypeError" (u "expected str"))
  end.

Fixpoint encode_all (dim : Z) (vs : list pyval) : result (list (list Z)) :=
  match vs with
  | [] => Ok []
  | v :: rest =>
      match embed dim v, encode_all dim rest with
      | Ok x, Ok xs => Ok (x :: xs)
      | Raise e, _ => Raise e
      | _, Raise e => Raise e
      end
  end.

(** Model ["B"] has dimension 3, every other named model dimension 2;
    the empty name cannot be resolved. *)
Definition load_model (name : str) : result Z :=
  match name with
  | [] => Raise (Exn "OSError" (u "model not found"))
  | _ => Ok (if bool_decide (name = u "B") then 3 else 2)
  end.

Fixpoint inner (x y : list Z) : Z :=
  match x, y with
  | a :: x', b :: y' => a * b + inner x' y'
  | _, _ => 0
  end.

(** The score reported next to the label -1. *)
Definition lowest : score := - (2 ^ 128 - 2 ^ 104) * 2 ^ 149.

Definition by_score (a b : score * Z) : Prop := fst b <= fst a.

#[global] Instance by_score_dec a b : Decision (by_score a b).
Proof. unfold by_score. apply _. Defined.

Definition scored (xb : list (list Z)) (q : list Z) : list (score * Z) :=
  imap (fun i x => (inner x q, Z.of_nat i)) xb.

(** The rows come by non-increasing score and, among equal scores, from
    the highest label down, which is the order in which [IndexFlatIP]
    reports equal rows. *)
Definition flat (dim : Z) (xb : list (list Z)) (q : list Z) (k : Z)
  : result (list (score * Z)) :=
  if k <=? 0 then Raise (Exn "AssertionError" [])
  else
    let top := take (Z.to_nat k)
                    (merge_sort by_score (rev (scored xb q))) in
    Ok (top ++ replicate (Z.to_nat k - length top) (lowest, -1)).

(** [faiss.normalize_L2] reads [x.shape[1]]: the array that [encode]
    returns for an empty batch has one dimension only. The integer rows
    are kept as they are. *)
Definition normalize (x : list (list Z)) : result (list (list Z)) :=
  match x with
  | [] => Raise (Exn "IndexError" (u "tuple index out of range"))
  | _ => Ok x
  end.

Definition load_pipeline (name dev : str) : result unit :=
  match name with
  | [] => Raise (Exn "OSError" (u "model not found"))
  | _ => Ok tt
  end.

(** Generation fails on a prompt of more than 2000 characters. *)
Definition run_pipeline (g : unit) (prompt : str) : result str :=
  if 2000 <? len prompt
  then Raise (Exn "RuntimeError" (u "prompt too long"))
  else Ok (u "  Une réponse.  ").

Definition sample_text : str := u "alpha beta gamma delta epsilon zeta".

(** One readable file, [doc.pdf]. *)
Definition extract (path : str) : result str :=
  if bool_decide (path = u "doc.pdf") then Ok sample_text
  else Raise (Exn "FileNotFoundError"
                (u "Le fichier " ++ path ++ u " n'existe pas")).

Definition backend : Backend := {|
  vec := list Z;
  model := Z;
  text2text := unit;
  SentenceTransformer := load_model;
  get_sentence_embedding_dimension := fun m => m;
  encode := encode_all;
  vdim := fun v => len v;
  normalize_L2 := normalize;
  flat_search := flat;
  pipeline := load_pipeline;
  generate := run_pipeline;
  extract_text_from_pdf := extract;
  round3 := fun s => s;
|}.

(** A new session, and the same session after [load_pdf("doc.pdf")]. *)
Definition fresh : RAGSystem.world (B := backend) :=
  {| RAGSystem.self :=
       RAGSystem.init (u "A") (u "google/flan-t5-large") (u "cpu");
     RAGSystem.objs := [] |}.

Definition ready : RAGSystem.world (B := backend) :=
  snd (RAGSystem.load_pdf (u "doc.pdf") fresh).

(** A store for model ["A"] over two chunks with the same text, the
    index built from them, and that index saved as [idx]. *)
Definition twins : heap :=
  [ PDFProcessor.chunk_info (u "le chat") 0 0 2 2 7;
    PDFProcessor.chunk_info (u "le chat") 1 2 4 2 7 ].

Definition store_A : VectorStore.world (B := backend) :=
  {| VectorStore.self := VectorStore.init (u "A");
     VectorStore.objs := twins |}.

Definition built_A : VectorStore.world (B := backend) :=
  snd (VectorStore.build_index [0%nat; 1%nat] store_A).


(** The index of [built_A], the answer of [built_A] to the query
    ["chat"] with [k = 2] and the store after that search. *)
Definition index_A : VectorStore.IndexFlatIP (B := backend) :=
  @VectorStore.Build_IndexFlatIP backend 2 [[7; 657]; [7; 657]].

Definition hits : list (loc * Z) := [(2%nat, 273340); (3%nat, 273340)].

Definition searched : VectorStore.world (B := backend) :=
  snd (VectorStore.search (u "chat") 2 built_A).

(** A store that has built nothing yet. *)
Definition empty_store : VectorStore.world (B := backend) :=
  {| VectorStore.self := VectorStore.init (u "A");
     VectorStore.objs := [] |}.


(** A store whose live embedding model is ["B"]. *)
Definition live_B : VectorStore.world (B := backend) :=
  snd (VectorStore.load_embedding_model
         {| VectorStore.self := VectorStore.init (u "B");
            VectorStore.objs := [] |}).

End Reference.

(** ** pdf_processor.py: the extraction of the text *)

Module PDFText.

(** The PDF libraries, as the two extraction methods use them.
    - [path_exists p] is [Path(p).exists()].
    - [fitz_open p] is [fitz.open(p)]: an exception, or the pages of the
      document, each with the outcome of [load_page(n).get_text()].
    - [pypdf2_open p] is [open(p, 'rb')] followed by [PyPDF2.PdfReader]:
      an exception, or the pages, each with the outcome of
      [extract_text()]. *)
Class Readers := {
  path_exists : str -> bool;
  fitz_open : str -> result (list (result str));
  pypdf2_open : str -> result (list (result str));
}.

(** [f"\n--- Page {page_num + 1} ---\n"] *)
Definition page_header (page_num : Z) : str :=
  [10%N] ++ u "--- Page " ++ u (pretty (page_num + 1)) ++ u " ---" ++ [10%N].

(** The loop over the pages, common to both methods: [text] is the text
    gathered so far; a page that raises is skipped, and so is a page
    whose text is blank. *)
Fixpoint pages_loop (text : str) (page_num : Z) (pages : list (result str))
  : str :=
  match pages with
  | [] => text
  | page :: rest =>
      let text :=
        match page with
        | Ok page_text =>
            match strip page_text with
            | [] => text
            | _ => (text ++ page_header page_num) ++ page_text
            end
        | Raise _ => text
        end in
      pages_loop text (page_num + 1) rest
  end.

Section WithReaders.
Context {R : Readers}.

Definition extract_text_from_pdf_pypdf2 (pdf_path : str) : result str :=
  match pypdf2_open pdf_path with
  | Raise e => Raise e
  | Ok pages => Ok (pages_loop [] 0 pages)
  end.

Definition extract_text_from_pdf_pymupdf (pdf_path : str) : result str :=
  match fitz_open pdf_path with
  | Raise e => Raise e
  | Ok doc => Ok (pages_loop [] 0 doc)
  end.

(** [use_pymupdf] is the attribute of the same name. *)
Definition extract_text_from_pdf (use_pymupdf : bool) (pdf_path : str)
  : result str :=
  if negb (path_exists pdf_path) then
    Raise (Exn "FileNotFoundError"
             (u "Le fichier " ++ pdf_path ++ u " n'existe pas"))
  else if use_pymupdf then
    match extract_text_from_pdf_pymupdf pdf_path with
    | Ok text => Ok text
    | Raise _ => extract_text_from_pdf_pypdf2 pdf_path
    end
  else extract_text_from_pdf_pypdf2 pdf_path.

End WithReaders.

(** What one page adds to the text. *)
Definition page_part (page_num : Z) (page : result str) : str :=
  match page with
  | Ok page_text =>
      match strip page_text with
      | [] => []
      | _ => page_header page_num ++ page_text
      end
  | Raise _ => []
  end.

(** A page that gives nothing: it raises, or its text is blank. *)
Definition silent (page : result str) : Prop :=
  match page with
  | Ok page_text => forallb isspace page_text = true
  | Raise _ => True
  end.

End PDFText.

(** ** vector_store.py and rag_system.py: the reports *)

Module Report.
Section WithBackend.
Context {B : Backend}.

(** The dict returned by [get_stats]: [{"status": "Index non construit"}]
    or the four entries [nb_vectors], [dimension], [nb_chunks], [model]. *)
Inductive stats :=
  | NotBuilt (status : str)
  | Built (nb_vectors : Z) (dimension : option Z) (nb_chunks : Z) (model : str).

Definition get_stats (s : VectorStore.t) : stats :=
  match VectorStore.index s with
  | None => NotBuilt (u "Index non construit")
  | Some ix =>
      Built (VectorStore.ntotal ix) (VectorStore.dimension s)
            (len (VectorStore.chunks s)) (VectorStore.model_name s)
  end.

(** The dict returned by [get_system_info]; [index_stats] holds the
    entries added by [info.update(...)]. *)
Record system_info := {
  info_embedding_model : str;
  info_generation_model : str;
  info_device : str;
  info_is_ready : bool;
  info_current_pdf : option str;
  index_stats : option stats;
}.

Definition get_system_info (s : RAGSystem.t) : system_info :=
  {| info_embedding_model := RAGSystem.embedding_model_name s;
     info_generation_model := RAGSystem.generation_model_name s;
     info_device := RAGSystem.device s;
     info_is_ready := RAGSystem.is_ready s;
     info_current_pdf := RAGSystem.current_pdf s;
     index_stats :=
       if RAGSystem.is_ready s
       then Some (get_stats (RAGSystem.vector_store s))
       else None |}.

End WithBackend.
End Report.

(** ** app.py *)

Module App.
Section WithBackend.
Context {B : Backend}.

(** [basename] is [os.path.basename] and [float_str] the text of a
    float in an f-string. *)
Context (basename : str -> str) (float_str : Z -> str).

Definition no_file_message : str := u "❌ Aucun fichier sélectionné".

Definition welcome_message : str :=
  u "Bonjour ! Votre document a été chargé. Vous pouvez maintenant me poser des questions à son sujet.".

(** [upload_pdf(file)]; [file] is [None] or the path of the uploaded
    file ([file.name]). *)
Definition upload_pdf (file : option str) : M RAGSystem.world (str * str) :=
  match file with
  | None => ret (no_file_message, [])
  | Some file_path =>
      try_except
        (stats <- RAGSystem.load_pdf file_path ;;
         let status_message :=
           u "✅ PDF chargé avec succès!" ++ [10%N]
           ++ u "📄 Fichier: " ++ basename file_path ++ [10%N]
           ++ u "📝 Segments: " ++ u (pretty (RAGSystem.nb_chunks stats))
           ++ [10%N]
           ++ u "🎯 Statut: " ++ RAGSystem.stats_status stats in
         ret (status_message, welcome_message))
        (fun e =>
           ret (u "❌ Erreur lors du chargement: " ++ exn_msg e, []))
  end.

Definition not_ready_message : str :=
  u "⚠️ Veuillez d'abord charger un PDF avant de poser des questions.".

Definition empty_message : str := u "Veuillez poser une question.".

(** The lines added for the first two sources. *)
Fixpoint source_lines (i : Z) (srcs : list RAGSystem.source) : str :=
  match srcs with
  | [] => []
  | src :: rest =>
      (u (pretty (i + 1)) ++ u ". "
       ++ slice (RAGSystem.src_text src) 0 150
       ++ u "... (Score: " ++ float_str (RAGSystem.src_score src) ++ u ")"
       ++ [10%N])
      ++ source_lines (i + 1) rest
  end.

(** The message shown for a response of [generate_answer]. *)
Definition bot_message_of (r : RAGSystem.response) : str :=
  match RAGSystem.error r with
  | Some (_ :: _) => u "❌ " ++ RAGSystem.answer r
  | _ =>
      match RAGSystem.sources r with
      | [] => RAGSystem.answer r
      | srcs =>
          RAGSystem.answer r
          ++ [10; 10]%N ++ u "📚 **Sources utilisées:**" ++ [10%N]
          ++ source_lines 0 (slice srcs 0 2)
      end
  end.

(** [chat_with_pdf(message, history)]; the history is the list that
    [history.append] extends, an exchange being a pair. *)
Definition chat_with_pdf (message : str) (history : list (str * str))
  : M RAGSystem.world (list (str * str) * str) :=
  w <- get ;;
  if negb (RAGSystem.is_ready (RAGSystem.self w)) then
    ret (history ++ [(message, not_ready_message)], [])
  else
    match strip message with
    | [] => ret (history ++ [(message, empty_message)], [])
    | _ =>
        try_except
          (result <- RAGSystem.generate_answer message 3 ;;
           ret (history ++ [(message, bot_message_of result)], []))
          (fun e =>
             ret (history ++ [(message, u "❌ Erreur: " ++ exn_msg e)], []))
    end.

(** [clear_chat()] *)
Definition clear_chat : list (str * str) := [].

End WithBackend.
End App.

(** ** Sessions *)

(** The calls a front end makes on the session, and a session after a
    sequence of them. *)
Module Session.
Section WithBackend.
Context {B : Backend}.

Inductive call :=
  | LoadPdf (path : str)
  | Ask (question : str) (max_context_chunks : Z).

Definition step (w : RAGSystem.world) (c : call) : RAGSystem.world :=
  match c with
  | LoadPdf path => snd (RAGSystem.load_pdf path w)
  | Ask question k => snd (RAGSystem.generate_answer question k w)
  end.

Definition run (calls : list call) (w : RAGSystem.world) : RAGSystem.world :=
  fold_left step calls w.

(** The session at process start. *)
Definition start (embedding_model generation_model dev : str)
  : RAGSystem.world :=
  {| RAGSystem.self := RAGSystem.init embedding_model generation_model dev;
     RAGSystem.objs := [] |}.

(** The store of a session, with the objects. *)
Definition store_of (w : RAGSystem.world) : VectorStore.world :=
  {| VectorStore.self := RAGSystem.vector_store (RAGSystem.self w);
     VectorStore.objs := RAGSystem.objs w |}.

(** What a question leaves in place: the readiness, the document, the
    configuration, the index and its chunk list, every existing object
    and a loaded generator. *)
Definition preserved (w w' : RAGSystem.world) : Prop :=
  RAGSystem.is_ready (RAGSystem.self w') = RAGSystem.is_ready (RAGSystem.self w)
  /\ RAGSystem.current_pdf (RAGSystem.self w')
     = RAGSystem.current_pdf (RAGSystem.self w)
  /\ RAGSystem.pdf_processor (RAGSystem.self w')
     = RAGSystem.pdf_processor (RAGSystem.self w)
  /\ RAGSystem.generation_model_name (RAGSystem.self w')
     = RAGSystem.generation_model_name (RAGSystem.self w)
  /\ RAGSystem.device (RAGSystem.self w') = RAGSystem.device (RAGSystem.self w)
  /\ VectorStore.index (VectorStore.self (store_of w'))
     = VectorStore.index (VectorStore.self (store_of w))
  /\ VectorStore.chunks (VectorStore.self (store_of w'))
     = VectorStore.chunks (VectorStore.self (store_of w))
  /\ VectorStore.model_name (VectorStore.self (store_of w'))
     = VectorStore.model_name (VectorStore.self (store_of w))
  /\ (exists extra, RAGSystem.objs w' = RAGSystem.objs w ++ extra)
  /\ (forall g, RAGSystem.generator (RAGSystem.self w) = Some g ->
                RAGSystem.generator (RAGSystem.self w') = Some g).

(** What holds of a session at any time: the chunk references point
    into the object store, and a ready session has an index and a
    current document. *)
Definition sound (w : RAGSystem.world) : Prop :=
  VectorStore.valid_refs (store_of w) = true
  /\ (RAGSystem.is_ready (RAGSystem.self w) = true ->
      VectorStore.index (VectorStore.self (store_of w)) <> None
      /\ RAGSystem.current_pdf (RAGSystem.self w) <> None).

End WithBackend.
End Session.

(** ** Pure readings of the object store *)

Module Reading.

(** [[chunk['text'] for chunk in chunks]], read in the store [h]. *)
Fixpoint chunk_texts (h : heap) (cs : list loc) : result (list pyval) :=
  match cs with
  | [] => Ok []
  | c :: rest =>
      match h !! c with
      | None => Raise (Exn "ReferenceError" [])
      | Some dct =>
          match getitem dct "text" with
          | Raise e => Raise e
          | Ok t =>
              match chunk_texts h rest with
              | Raise e => Raise e
              | Ok ts => Ok (t :: ts)
              end
          end
      end
  end.

(** The dicts behind a list of references. *)
Definition contents (h : heap) (cs : list loc) : list (option dict) :=
  map (fun l => h !! l) cs.

End Reading.

(** ** Predicates of the statements *)

Section Predicates.
Import PDFProcessor.

(** What one chunk says about itself, against the tokens of the text. *)
Definition faithful (words : list str) (c : dict) : Prop :=
  exists t s e,
    c !! "text"%string = Some (VStr t)
    /\ span c s e
    /\ findall_nonspace [] t = slice words s e
    /\ int_field "word_count" c = Some (len (findall_nonspace [] t))
    /\ int_field "char_count" c = Some (len t).

(** A character that [clean_text] lets through inside a line. *)
Definition printable (c : N) : Prop :=
  c <> 10%N /\ c <> 9%N /\ is_control c = false.

End Predicates.

(** ** Sample files and stores *)

Module Samples.

(** The pages of [doc.pdf] as PyMuPDF reads them: the second is blank
    and the third cannot be read. *)
Definition doc_pages : list (result str) :=
  [ Ok (u "Premier chapitre");
    Ok (u "  ");
    Raise (Exn "RuntimeError" (u "page illisible"));
    Ok (u "Fin") ].

(** Four files exist: [doc.pdf]; [blank.pdf], whose only page is blank;
    [scan.pdf], which only PyPDF2 opens; [broken.pdf], which neither
    library opens. *)
Definition readers : PDFText.Readers := {|
  PDFText.path_exists := fun p =>
    bool_decide (p = u "doc.pdf") || bool_decide (p = u "blank.pdf")
    || bool_decide (p = u "scan.pdf") || bool_decide (p = u "broken.pdf");
  PDFText.fitz_open := fun p =>
    if bool_decide (p = u "doc.pdf") then Ok doc_pages
    else if bool_decide (p = u "blank.pdf") then Ok [Ok (u " ")]
    else Raise (Exn "FileDataError" (u "cannot open document"));
  PDFText.pypdf2_open := fun p =>
    if bool_decide (p = u "scan.pdf") then Ok [Ok (u "Texte du scan")]
    else Raise (Exn "PdfReadError" (u "EOF marker not found"));
|}.

(** A session whose two objects are a chunk of 270 characters and a
    short one without [chunk_id], and the sources made from them. *)
Definition long_text : str := concat (replicate 30 (u "mot long ")).

Definition long_world : RAGSystem.world (B := Reference.backend) :=
  {| RAGSystem.self :=
       RAGSystem.init (u "A") (u "google/flan-t5-large") (u "cpu");
     RAGSystem.objs :=
       [ PDFProcessor.chunk_info long_text 7 0 60 60 270;
         {[ "text"%string := VStr (u "le chat") ]} ] |}.

Definition long_sources : list RAGSystem.source :=
  [ {| RAGSystem.src_chunk_id := VInt 7;
       RAGSystem.src_text := slice long_text 0 200 ++ u "...";
       RAGSystem.src_score := 5 |};
    {| RAGSystem.src_chunk_id := VInt 1;
       RAGSystem.src_text := u "le chat";
       RAGSystem.src_score := 3 |} ].

End Samples.

(** * Properties *)

(** ** The segmenter *)

(** Closed equations between values of the model are checked by
    evaluation on the virtual machine. *)
Ltac vm_refl :=
  match goal with |- ?a = ?b => exact (@eq_refl _ a <: a = b) end.

(** A run is described by its result and the state it reaches. *)
Lemma run_pair {A S : Type} (x : result A * S) (r : result A) :
  fst x = r -> x = (r, snd x).
Proof. intros <-. apply surjective_pairing. Qed.

Section Segmenter.
Import PDFProcessor.

Lemma lstrip_nil s : lstrip s = [] <-> forallb isspace s = true.
Proof.
  induction s as [|c r IH]; simpl; [tauto|].
  destruct (isspace c); simpl; [exact IH|].
  split; intros; discriminate.
Qed.

Lemma lstrip_head s c r : lstrip s = c :: r -> isspace c = false.
Proof.
  induction s as [|a s IH]; simpl; [discriminate|].
  destruct (isspace a) eqn:E; [exact IH|].
  intros [= <- _]. exact E.
Qed.

Lemma strip_nil s : strip s = [] <-> forallb isspace s = true.
Proof.
  unfold strip. split.
  - intros H. apply (f_equal (@rev N)) in H. rewrite rev_involutive in H.
    simpl in H. apply lstrip_nil in H.
    destruct (lstrip s) as [|c r] eqn:E; [now apply lstrip_nil|].
    apply lstrip_head in E.
    rewrite forallb_forall in H.
    rewrite (H c) in E; [discriminate|].
    apply in_rev. rewrite rev_involutive. now left.
  - intros H. apply lstrip_nil in H. now rewrite H.
Qed.

Lemma findall_nonspace_blank s :
  forallb isspace s = true -> findall_nonspace [] s = [].
Proof.
  induction s as [|c r IH]; simpl; [reflexivity|].
  destruct (isspace c); simpl; [exact IH|discriminate].
Qed.

(** A text with at least one token is not blank. *)
Lemma tokens_not_blank s :
  0 < len (findall_nonspace [] s) -> forallb isspace s = false.
Proof.
  intros H. destruct (forallb isspace s) eqn:E; [|reflexivity].
  rewrite (findall_nonspace_blank s E) in H. unfold len in H. simpl in H. lia.
Qed.

Lemma len_slice {A} (l : list A) (i n : Z) :
  0 <= i <= len l -> 0 <= n ->
  len (slice l i (i + n)) = Z.min (i + n) (len l) - i.
Proof.
  intros Hi Hn. unfold slice, slice_bound, len in *.
  rewrite length_take, length_drop.
  destruct (i <? 0) eqn:E1; [lia|].
  destruct (i + n <? 0) eqn:E2; lia.
Qed.

Lemma range_forward (stop step : Z) :
  0 < step -> 0 < stop ->
  range 0 stop step =
    Ok (map (fun j => Z.of_nat j * step)
            (seq 0 (Z.to_nat ((stop - 1) / step + 1)))).
Proof.
  intros Hs Ht. unfold range.
  destruct (step =? 0) eqn:E0; [lia|].
  destruct (0 <? step) eqn:E1; [|lia].
  destruct (0 <? stop) eqn:E2; [|lia].
  rewrite Z.sub_0_r. reflexivity.
Qed.

Lemma range_backward (stop step : Z) :
  step < 0 -> 0 < stop -> range 0 stop step = Ok [].
Proof.
  intros Hs Ht. unfold range.
  destruct (step =? 0) eqn:E0; [lia|].
  destruct (0 <? step) eqn:E1; [lia|].
  destruct (stop <? 0) eqn:E2; [lia|]. reflexivity.
Qed.

Lemma range_forward_bound (stop step : Z) (j : nat) :
  0 < step -> 0 < stop ->
  (j < Z.to_nat ((stop - 1) / step + 1))%nat ->
  0 <= Z.of_nat j * step < stop.
Proof.
  intros Hs Ht Hj.
  assert (0 <= (stop - 1) / step) by (apply Z.div_pos; lia).
  assert (step * ((stop - 1) / step) <= stop - 1)
    by (apply Z.mul_div_le; lia).
  nia.
Qed.

Lemma window_well_formed self words (j : nat) (i : Z) :
  0 <= chunk_size self -> 0 <= i < len words ->
  well_formed (len words) j (window self words (Z.of_nat j) i).
Proof.
  intros Hc Hi. exists i, (Z.min (i + chunk_size self) (len words)).
  unfold window. rewrite len_slice by lia.
  repeat split; try reflexivity. lia.
Qed.

Lemma windows_well_formed self words idxs : forall acc,
  0 <= chunk_size self ->
  Forall (fun i => 0 <= i < len words) idxs ->
  (forall j c, acc !! j = Some c -> well_formed (len words) j c) ->
  forall j c, windows self words idxs acc !! j = Some c ->
              well_formed (len words) j c.
Proof.
  induction idxs as [|i rest IH]; intros acc Hc Hall Hacc j c; simpl.
  - apply Hacc.
  - inversion Hall as [|? ? Hi Hrest]; subst.
    assert (Hnew : forall j c,
               (acc ++ [window self words (len acc) i]) !! j = Some c ->
               well_formed (len words) j c).
    { intros j' c' Hl. apply lookup_app_Some in Hl as [Hl|[Hge Hl]].
      - now apply Hacc.
      - apply list_lookup_singleton_Some in Hl as [Hz <-].
        assert (j' = length acc) as -> by lia.
        now apply window_well_formed. }
    destruct (len words <=? i + chunk_size self).
    + apply Hnew.
    + now apply IH.
Qed.


Lemma windows_closed self words n : forall a,
  exists m,
    (a <= m <= a + n)%nat
    /\ windows self words
         (map (fun j => Z.of_nat j * (chunk_size self - overlap self))
              (seq a n))
         (map (nth_window self words) (seq 0 a))
       = map (nth_window self words) (seq 0 m)
    /\ (forall j, (a <= j)%nat -> (S j < m)%nat -> ~ reaches_end self words j)
    /\ ((exists j, (a <= j < a + n)%nat /\ reaches_end self words j) ->
        (a < m)%nat /\ reaches_end self words (m - 1)).
Proof.
  induction n as [|n IH]; intros a.
  - exists a. simpl. split; [lia|]. split; [reflexivity|]. split.
    + intros j Hj Hjm. lia.
    + intros (j & Hj & _). lia.
  - simpl.
    assert (Hacc : map (nth_window self words) (seq 0 a)
                   ++ [window self words
                         (len (map (nth_window self words) (seq 0 a)))
                         (Z.of_nat a * (chunk_size self - overlap self))]
                   = map (nth_window self words) (seq 0 (S a))).
    { rewrite seq_S, map_app. simpl. unfold len.
      rewrite length_map, length_seq. reflexivity. }
    rewrite Hacc.
    destruct (len words <=?
              Z.of_nat a * (chunk_size self - overlap self) + chunk_size self)
      eqn:E.
    + exists (S a). split; [lia|]. split; [reflexivity|]. split.
      * intros j Hj Hjm. lia.
      * intros _. split; [lia|].
        replace (S a - 1)%nat with a by lia. unfold reaches_end. lia.
    + destruct (IH (S a)) as (m & Hm & Heq & Hfull & Hlast).
      exists m. split; [lia|]. split; [exact Heq|]. split.
      * intros j Hj Hjm. destruct (decide (j = a)) as [->|Hne].
        -- unfold reaches_end. lia.
        -- apply Hfull; lia.
      * intros (j & Hj & Hr).
        assert (j <> a) by (intros ->; unfold reaches_end in Hr; lia).
        destruct Hlast as [Hlt Hend].
        { exists j. split; [lia|exact Hr]. }
        split; [lia|exact Hend].
Qed.

Lemma nth_window_span self words j :
  span (nth_window self words j)
       (Z.of_nat j * (chunk_size self - overlap self))
       (Z.min (Z.of_nat j * (chunk_size self - overlap self) + chunk_size self)
              (len words)).
Proof. split; reflexivity. Qed.

Lemma span_inj c s e s' e' : span c s e -> span c s' e' -> s = s' /\ e = e'.
Proof. intros [H1 H2] [H3 H4]. split; congruence. Qed.

(** With [0 <= overlap < chunk_size] and more tokens than one window
    holds, the loop leaves by its [break]: the result is the first [m]
    windows, all but the last are full and the last one reaches the end. *)
Lemma create_chunks_windows self text :
  let words := findall_nonspace [] text in
  0 <= overlap self < chunk_size self -> chunk_size self < len words ->
  exists m,
    create_chunks self text = Ok (map (nth_window self words) (seq 0 m))
    /\ (0 < m)%nat
    /\ (forall j, (j < m)%nat ->
          Z.of_nat j * (chunk_size self - overlap self) < len words)
    /\ (forall j, (S j < m)%nat -> ~ reaches_end self words j)
    /\ reaches_end self words (m - 1).
Proof.
  intros words Hov HT.
  set (step := chunk_size self - overlap self).
  assert (Hstep : 0 < step <= chunk_size self) by (unfold step; lia).
  assert (Hblank : forallb isspace text = false)
    by (apply tokens_not_blank; fold words; lia).
  unfold create_chunks. fold words.
  destruct (strip text) as [|c0 r0] eqn:Es.
  { apply strip_nil in Es. congruence. }
  destruct (len words <=? chunk_size self) eqn:E; [lia|].
  fold step. rewrite range_forward by lia.
  set (n := Z.to_nat ((len words - 1) / step + 1)).
  assert (Hdiv : 0 <= (len words - 1) / step) by (apply Z.div_pos; lia).
  assert (Hgt : len words - 1 < step * Z.succ ((len words - 1) / step))
    by (apply Z.mul_succ_div_gt; lia).
  destruct (windows_closed self words n 0%nat)
    as (m & Hm & Heq & Hfull & Hlast).
  fold step in Heq. simpl in Heq.
  destruct Hlast as [Hpos Hend].
  { exists (n - 1)%nat. split; [unfold n; lia|].
    unfold reaches_end. fold step. unfold n. nia. }
  exists m. rewrite Heq. repeat split.
  - lia.
  - intros j Hj.
    apply (range_forward_bound (len words) step j); [lia|lia|fold n; lia].
  - intros j Hj. apply Hfull; lia.
  - exact Hend.
Qed.




(** C9: with a chunk size that is not negative, every chunk returned by
    [create_chunks] carries its position in the list as [chunk_id], has
    [word_count = end_word - start_word], and its [end_word] does not
    exceed the number of tokens of the text. *)
Theorem create_chunks_fields (self : t) (text : str) (chunks : list dict) :
  0 <= chunk_size self ->
  create_chunks self text = Ok chunks ->
  forall (j : nat) (c : dict), chunks !! j = Some c ->
    exists s e,
      int_field "chunk_id" c = Some (Z.of_nat j)
      /\ int_field "start_word" c = Some s
      /\ int_field "end_word" c = Some e
      /\ int_field "word_count" c = Some (e - s)
      /\ e <= len (findall_nonspace [] text).
Proof.
  intros Hc Hrun. unfold create_chunks in Hrun.
  set (words := findall_nonspace [] text) in *.
  change (forall j c, chunks !! j = Some c -> well_formed (len words) j c).
  destruct (strip text) as [|c0 r0] eqn:Es.
  { injection Hrun as <-. intros j c Hl. now rewrite lookup_nil in Hl. }
  destruct (len words <=? chunk_size self) eqn:E.
  { injection Hrun as <-. intros j c Hl.
    apply list_lookup_singleton_Some in Hl as [-> <-].
    exists 0, (len words). repeat split; try reflexivity.
    rewrite Z.sub_0_r. reflexivity. }
  assert (HT : 0 < len words) by lia.
  destruct (Z.lt_trichotomy (chunk_size self - overlap self) 0)
    as [Hneg|[Hzero|Hpos]].
  - rewrite range_backward in Hrun by lia. injection Hrun as <-.
    intros j c Hl. simpl in Hl. now rewrite lookup_nil in Hl.
  - rewrite Hzero in Hrun. discriminate.
  - rewrite range_forward in Hrun by lia. injection Hrun as <-.
    apply windows_well_formed; [exact Hc| |].
    + apply List.Forall_forall. intros i Hi.
      apply in_map_iff in Hi as (j & <- & Hj). apply in_seq in Hj.
      apply range_forward_bound; lia.
    + intros j c Hl. now rewrite lookup_nil in Hl.
Qed.

Lemma create_chunks_fields_witness :
  exists s e,
    int_field "chunk_id"
      (window {| chunk_size := 3; overlap := 1 |}
         (findall_nonspace [] (u "a b  c d e f g")) 2 4)
    = Some (Z.of_nat 2)
    /\ int_field "start_word"
         (window {| chunk_size := 3; overlap := 1 |}
            (findall_nonspace [] (u "a b  c d e f g")) 2 4)
       = Some s
    /\ int_field "end_word"
         (window {| chunk_size := 3; overlap := 1 |}
            (findall_nonspace [] (u "a b  c d e f g")) 2 4)
       = Some e
    /\ int_field "word_count"
         (window {| chunk_size := 3; overlap := 1 |}
            (findall_nonspace [] (u "a b  c d e f g")) 2 4)
       = Some (e - s)
    /\ e <= len (findall_nonspace [] (u "a b  c d e f g")).
Proof.
  refine (create_chunks_fields {| chunk_size := 3; overlap := 1 |}
            (u "a b  c d e f g")
            (windows {| chunk_size := 3; overlap := 1 |}
               (findall_nonspace [] (u "a b  c d e f g")) [0; 2; 4; 6] [])
            _ _ 2%nat _ _).
  - simpl. lia.
  - vm_refl.
  - vm_refl.
Defined.

(** C4: with [0 <= overlap < chunk_size] and a text of [T > chunk_size]
    tokens, [create_chunks] returns chunks whose token ranges lie in
    [[0, T)], each start is the previous one plus [chunk_size - overlap],
    two consecutive chunks share exactly the [overlap] tokens that
    begin at the second one's start, and every token position of
    [[0, T)] is in some chunk. For 1200 tokens with [chunk_size = 500]
    and [overlap = 50] the starts are 0, 450 and 900. *)
Theorem create_chunks_sliding (self : t) (text : str) :
  let T := len (findall_nonspace [] text) in
  0 <= overlap self < chunk_size self -> chunk_size self < T ->
  exists chunks,
    create_chunks self text = Ok chunks
    /\ (forall c, In c chunks ->
          exists s e, span c s e /\ 0 <= s < e /\ e <= T)
    /\ (forall (j : nat) c c' s e s' e',
          chunks !! j = Some c -> chunks !! S j = Some c' ->
          span c s e -> span c' s' e' ->
          s' = s + (chunk_size self - overlap self)
          /\ forall p, (s <= p < e /\ s' <= p < e')
                       <-> s' <= p < s' + overlap self)
    /\ (forall p, 0 <= p < T ->
          exists c s e, In c chunks /\ span c s e /\ s <= p < e)
    /\ (T = 1200 -> chunk_size self = 500 -> overlap self = 50 ->
        map (int_field "start_word") chunks = [Some 0; Some 450; Some 900]).
Proof.
  intros T Hov HT.
  destruct (create_chunks_windows self text Hov HT)
    as (m & Hrun & Hm & Hin & Hfull & Hend).
  fold T in Hin. unfold reaches_end in Hfull, Hend. fold T in Hfull, Hend.
  set (words := findall_nonspace [] text) in *.
  set (step := chunk_size self - overlap self) in *.
  assert (Hstep : 0 < step) by (unfold step; lia).
  assert (Hnth : forall (j : nat) c,
             map (nth_window self words) (seq 0 m) !! j = Some c ->
             (j < m)%nat /\ c = nth_window self words j).
  { intros j c Hl. rewrite list_lookup_fmap in Hl.
    destruct (seq 0 m !! j) as [j'|] eqn:Ej; [|discriminate].
    apply lookup_seq in Ej as [-> Hj]. simpl in Hl.
    split; [exact Hj|congruence]. }
  exists (map (nth_window self words) (seq 0 m)).
  split; [exact Hrun|]. split; [|split; [|split]].
  - intros c Hc. apply in_map_iff in Hc as (j & <- & Hj).
    apply in_seq in Hj. eexists _, _. split; [apply nth_window_span|].
    fold step. fold T. specialize (Hin j ltac:(lia)). nia.
  - intros j c c' s e s' e' Hl Hl' Hs Hs'.
    apply Hnth in Hl as [Hj ->]. apply Hnth in Hl' as [Hj' ->].
    destruct (span_inj _ _ _ _ _ Hs (nth_window_span self words j))
      as [-> ->].
    destruct (span_inj _ _ _ _ _ Hs' (nth_window_span self words (S j)))
      as [-> ->].
    fold step. fold T.
    specialize (Hfull j Hj'). rewrite Nat2Z.inj_succ.
    split; [lia|]. intros p. lia.
  - intros p Hp.
    assert (Hq : 0 <= p / step) by (apply Z.div_pos; lia).
    assert (Hle : step * (p / step) <= p) by (apply Z.mul_div_le; lia).
    assert (Hgt : p < step * Z.succ (p / step))
      by (apply Z.mul_succ_div_gt; lia).
    destruct (decide (S (Z.to_nat (p / step)) < m)%nat) as [Hlt|Hge].
    + exists (nth_window self words (Z.to_nat (p / step))).
      eexists _, _. split; [|split; [apply nth_window_span|]].
      * apply in_map. apply in_seq. lia.
      * fold step. fold T. specialize (Hfull _ Hlt).
        rewrite Z2Nat.id in * by lia. lia.
    + exists (nth_window self words (m - 1)).
      eexists _, _. split; [|split; [apply nth_window_span|]].
      * apply in_map. apply in_seq. lia.
      * fold step. fold T.
        assert (Z.of_nat (m - 1) <= p / step) by lia.
        nia.
  - intros H1200 Hcs Hovl.
    assert (Hs450 : step = 450) by (unfold step; lia).
    assert (m = 3%nat) as ->.
    { destruct (decide (m <= 2)%nat) as [Hle|Hgt]; [nia|].
      destruct (decide (4 <= m)%nat) as [Hge|Hlt]; [|lia].
      exfalso. apply (Hfull 2%nat); lia. }
    rewrite map_map. simpl. unfold nth_window, window, int_field.
    simpl. fold step. rewrite Hs450. reflexivity.
Qed.

Lemma create_chunks_sliding_witness :
  exists chunks,
    create_chunks default (concat (replicate 1200 (u "mot "))) = Ok chunks
    /\ map (int_field "start_word") chunks = [Some 0; Some 450; Some 900].
Proof.
  destruct (create_chunks_sliding default (concat (replicate 1200 (u "mot "))))
    as (chunks & Hrun & _ & _ & _ & Hstarts).
  - simpl. lia.
  - vm_compute. reflexivity.
  - exists chunks. split; [exact Hrun|].
    apply Hstarts; vm_compute; reflexivity.
Defined.

End Segmenter.

(** ** The answer orchestrator *)

Section Orchestrator.
Context {B : Backend}.
Import RAGSystem.

(** C8, as the code has it: while no document is loaded, every question
    gets the fixed response with no sources whose error tag is
    [no_pdf_loaded], and the session, the object store, the index and
    the generation backend are left as they were. *)
Theorem generate_answer_not_ready (w : world) (question : str) (k : Z) :
  is_ready (self w) = false ->
  generate_answer question k w = (Ok no_pdf_response, w)
  /\ answer no_pdf_response
     = u "Aucun PDF chargé. Veuillez d'abord charger un document."
  /\ sources no_pdf_response = []
  /\ error no_pdf_response = Some (u "no_pdf_loaded").
Proof.
  intros Hr. unfold generate_answer, bind, get. rewrite Hr. simpl.
  repeat split.
Qed.

(** The stages of the [try] block of [generate_answer]: an exception of
    the generator loading, of the retrieval, of the prompt construction
    or of the generation is the exception of the block. *)
Lemma answer_body_loading (w : world) question k e :
  generator (self w) = None ->
  pipeline (generation_model_name (self w)) (device (self w)) = Raise e ->
  answer_body question k w = (Raise e, w).
Proof.
  intros Hg Hp. unfold answer_body, load_generation_model, bind, get, lift.
  rewrite Hg. cbv beta iota. rewrite Hg, Hp. reflexivity.
Qed.

Lemma answer_body_retrieval (w : world) question k g e w1 :
  generator (self w) = Some g ->
  in_vector_store (VectorStore.search question k) w = (Raise e, w1) ->
  answer_body question k w = (Raise e, w1).
Proof.
  intros Hg Hs. unfold answer_body, bind, get, ret.
  rewrite Hg. cbv beta iota. rewrite Hs. reflexivity.
Qed.

Lemma answer_body_prompt (w : world) question k g r rs w1 e w2 :
  generator (self w) = Some g ->
  in_vector_store (VectorStore.search question k) w = (Ok (r :: rs), w1) ->
  create_prompt question (map fst (r :: rs)) w1 = (Raise e, w2) ->
  answer_body question k w = (Raise e, w2).
Proof.
  intros Hg Hs Hp. unfold answer_body, bind, get, ret.
  rewrite Hg. cbv beta iota. rewrite Hs. cbv beta iota. rewrite Hp.
  reflexivity.
Qed.

Lemma answer_body_generation (w : world) question k g r rs w1 prompt w2 e w3 :
  generator (self w) = Some g ->
  in_vector_store (VectorStore.search question k) w = (Ok (r :: rs), w1) ->
  create_prompt question (map fst (r :: rs)) w1 = (Ok prompt, w2) ->
  call_generator prompt w2 = (Raise e, w3) ->
  answer_body question k w = (Raise e, w3).
Proof.
  intros Hg Hs Hp Hc. unfold answer_body, bind, get, ret.
  rewrite Hg. cbv beta iota. rewrite Hs. cbv beta iota. rewrite Hp.
  cbv beta iota. rewrite Hc. reflexivity.
Qed.

(** C7: on a ready session [generate_answer] never raises; when the
    [try] block (generator loading, retrieval, prompt construction,
    generation, source formatting) raises [e], the response is the
    message of [e] behind the fixed prefix, with no sources and the
    error tag [generation_error]. *)
Theorem generate_answer_catches (w : world) (question : str) (k : Z) :
  is_ready (self w) = true ->
  (exists r w1, generate_answer question k w = (Ok r, w1))
  /\ forall e w1,
       answer_body question k w = (Raise e, w1) ->
       exists r,
         generate_answer question k w = (Ok r, w1)
         /\ answer r = u "Erreur lors de la génération: " ++ exn_msg e
         /\ sources r = []
         /\ error r = Some (u "generation_error").
Proof.
  intros Hr. unfold generate_answer, bind, get, try_except.
  rewrite Hr. simpl.
  destruct (answer_body question k w) as [[r|e0] w0]; split.
  - now exists r, w0.
  - intros e w1 [=].
  - now exists (error_response e0), w0.
  - intros e w1 [= <- <-]. exists (error_response e0). repeat split.
Qed.

(** An exception of the extraction leaves [load_pdf] with every
    attribute as it was, except [is_ready]. *)
Lemma load_pdf_extraction (w : world) (path : str) (e : exn) :
  PDFProcessor.process_pdf (pdf_processor (self w)) path = Raise e ->
  load_pdf path w = (Raise e, set_self (set_is_ready false) w).
Proof.
  intros Hp. unfold load_pdf, try_except, load_pdf_body, bind, get, lift.
  rewrite Hp. reflexivity.
Qed.

(** An exception of [build_index] leaves the store as [build_index]
    left it, with [is_ready] false. *)
Lemma load_pdf_indexing (w : world) (path : str) res cs w1 e w2 :
  PDFProcessor.process_pdf (pdf_processor (self w)) path = Ok res ->
  new_objects (PDFProcessor.chunks res) w = (Ok cs, w1) ->
  in_vector_store (VectorStore.build_index cs) w1 = (Raise e, w2) ->
  load_pdf path w = (Raise e, set_self (set_is_ready false) w2).
Proof.
  intros Hp Hn Hb. unfold load_pdf, try_except, load_pdf_body, bind, get, lift.
  rewrite Hp, Hn, Hb. reflexivity.
Qed.

(** C1, as the code has it: when [load_pdf] raises, the exception is
    the one raised inside its [try] block (by the extraction or by the
    construction of the index), and [is_ready] is false afterwards,
    whatever it was before the call. *)
Theorem load_pdf_failure (w : world) (path : str) (e : exn) (w' : world) :
  load_pdf path w = (Raise e, w') ->
  is_ready (self w') = false
  /\ exists w1, load_pdf_body path w = (Raise e, w1)
                /\ w' = set_self (set_is_ready false) w1.
Proof.
  unfold load_pdf, try_except.
  destruct (load_pdf_body path w) as [[st|e0] w0]; [discriminate|].
  unfold bind, modify, raise. intros [= <- <-].
  split; [reflexivity|]. now exists w0.
Qed.

End Orchestrator.

Lemma generate_answer_not_ready_witness :
  RAGSystem.generate_answer (u "De quoi parle ce document ?") 3
    Reference.fresh
  = (Ok RAGSystem.no_pdf_response, Reference.fresh).
Proof.
  apply (generate_answer_not_ready (B := Reference.backend)).
  vm_refl.
Defined.

(** The tag of the response for a session without document is not the
    [no_document_loaded] of C8. *)
Lemma generate_answer_not_ready_tag :
  fst (RAGSystem.generate_answer (u "De quoi parle ce document ?") 3
         Reference.fresh)
  = Ok RAGSystem.no_pdf_response
  /\ RAGSystem.error RAGSystem.no_pdf_response
     <> Some (u "no_document_loaded").
Proof.
  split; [vm_refl|]. vm_compute. discriminate.
Qed.

Lemma generate_answer_catches_witness :
  exists r,
    RAGSystem.generate_answer (u "De quoi parle ce document ?") 0
      Reference.ready
    = (Ok r, snd (RAGSystem.answer_body (u "De quoi parle ce document ?") 0
                    Reference.ready))
    /\ RAGSystem.answer r
       = u "Erreur lors de la génération: " ++ exn_msg (Exn "AssertionError" [])
    /\ RAGSystem.sources r = []
    /\ RAGSystem.error r = Some (u "generation_error").
Proof.
  apply (generate_answer_catches (B := Reference.backend) Reference.ready
           (u "De quoi parle ce document ?") 0).
  - vm_refl.
  - apply run_pair. vm_refl.
Defined.

(** A session that was ready is no longer ready after a failed load:
    [is_ready] does not keep its value, against C1. *)
Lemma load_pdf_resets_ready :
  RAGSystem.is_ready (RAGSystem.self Reference.ready) = true
  /\ fst (RAGSystem.load_pdf (u "absent.pdf") Reference.ready)
     = Raise (Exn "FileNotFoundError"
                (u "Le fichier absent.pdf n'existe pas"))
  /\ RAGSystem.is_ready
       (RAGSystem.self
          (snd (RAGSystem.load_pdf (u "absent.pdf") Reference.ready)))
     = false.
Proof. repeat split; vm_refl. Qed.

Lemma load_pdf_failure_witness :
  RAGSystem.is_ready
    (RAGSystem.self
       (snd (RAGSystem.load_pdf (u "absent.pdf") Reference.ready)))
  = false.
Proof.
  apply (load_pdf_failure (B := Reference.backend) Reference.ready
           (u "absent.pdf")
           (Exn "FileNotFoundError" (u "Le fichier absent.pdf n'existe pas"))).
  apply run_pair. vm_refl.
Defined.

(** ** The embedding index *)

Section Index.
Context {B : Backend}.
Import VectorStore.

(** Running the monadic operations of a method body. *)
Ltac run :=
  repeat (progress (unfold model_encode, load_embedding_model,
                      create_embeddings, copy, deref,
                      bind, get, ret, lift, modify, raise;
                    cbv beta iota)).

Lemma search_unfold q k w ix m :
  index (self w) = Some ix -> the_model (self w) = Ok m ->
  search q k w =
    match encode m [VStr q] with
    | Raise e => (Raise e, loaded m w)
    | Ok qe =>
        match normalize_L2 qe with
        | Raise e => (Raise e, loaded m w)
        | Ok x =>
            match search_row0 ix x k with
            | Raise e => (Raise e, loaded m w)
            | Ok r => collect r (loaded m w)
            end
        end
    end.
Proof.
  intros Hix Hm. unfold search, the_model, loaded in *.
  run. rewrite Hix.
  destruct (embedding_model (self w)) as [m0|] eqn:Em.
  - injection Hm as ->. run. rewrite Em.
    destruct (encode m [VStr q]) as [qe|e]; [|reflexivity].
    destruct (normalize_L2 qe) as [x|e]; [|reflexivity].
    rewrite Hix.
    destruct (search_row0 ix x k); reflexivity.
  - run. rewrite Em, Hm. simpl.
    destruct (encode m [VStr q]) as [qe|e]; [|reflexivity].
    destruct (normalize_L2 qe) as [x|e]; [|reflexivity].
    rewrite Hix.
    destruct (search_row0 ix x k); reflexivity.
Qed.

Lemma search_inv q k w results w' :
  search q k w = (Ok results, w') ->
  exists ix m qe x r,
    index (self w) = Some ix /\ the_model (self w) = Ok m
    /\ encode m [VStr q] = Ok qe
    /\ normalize_L2 qe = Ok x
    /\ search_row0 ix x k = Ok r
    /\ collect r (loaded m w) = (Ok results, w').
Proof.
  intros H.
  destruct (index (self w)) as [ix|] eqn:Hix.
  2:{ unfold search, bind, get in H. rewrite Hix in H. discriminate. }
  destruct (the_model (self w)) as [m|e] eqn:Hm.
  - rewrite (search_unfold q k w ix m Hix Hm) in H.
    destruct (encode m [VStr q]) as [qe|e] eqn:Hq; [|discriminate].
    destruct (normalize_L2 qe) as [x|e] eqn:Hn; [|discriminate].
    destruct (search_row0 ix x k) as [r|e] eqn:Hr; [|discriminate].
    now exists ix, m, qe, x, r.
  - exfalso. unfold search, the_model in *. revert H. run.
    rewrite Hix.
    destruct (embedding_model (self w)) eqn:Em; [discriminate|].
    run. rewrite Em, Hm. discriminate.
Qed.

Lemma search_row0_inv ix x k r :
  search_row0 ix x k = Ok r ->
  exists v rest, x = v :: rest /\ flat_search (d ix) (xb ix) v k = Ok r.
Proof.
  unfold search_row0. destruct (forallb _ x); [|discriminate].
  destruct x as [|v rest]; [discriminate|]. intros H. now exists v, rest.
Qed.

(** The scores of the results are those of the reported entries, in the
    order of the report. *)
Lemma collect_scores r : forall w results w',
  collect r w = (Ok results, w') ->
  map snd results = map fst (filter reported r).
Proof.
  induction r as [|[s idx] rest IH]; intros w results w' H; simpl in H.
  - injection H as <- _. reflexivity.
  - rewrite filter_cons. unfold reported at 1. simpl.
    destruct (idx =? -1) eqn:E.
    + apply Z.eqb_eq in E. destruct (decide (idx <> -1)); [contradiction|].
      now apply (IH w _ w').
    + apply Z.eqb_neq in E. destruct (decide (idx <> -1)); [|contradiction].
      unfold bind at 1 2, get, lift in H.
      destruct (list_getitem (chunks (self w)) idx) as [c|e]; [|discriminate].
      unfold bind at 1 in H.
      destruct (copy c w) as [[chunk|e] w1]; [|discriminate].
      unfold bind in H.
      destruct (collect rest w1) as [[res|e] w2] eqn:Hc; [|discriminate].
      unfold ret in H. injection H as <- _. simpl.
      f_equal. now apply (IH w1 _ w2).
Qed.

(** At most [n] distinct labels lie in [[0, n)]. *)
Lemma distinct_labels_bound (ls : list Z) (n : Z) :
  NoDup ls -> Forall (fun l => 0 <= l < n) ls -> len ls <= Z.max 0 n.
Proof.
  intros Hnd Hall.
  assert (Hsub : ls ⊆+ seqZ 0 n).
  { apply NoDup_submseteq; [exact Hnd|].
    intros x Hx. rewrite Forall_forall in Hall.
    apply elem_of_seqZ. specialize (Hall x Hx). lia. }
  apply submseteq_length in Hsub. rewrite length_seqZ in Hsub.
  unfold len. lia.
Qed.


Lemma loaded_props m w :
  the_model (self w) = Ok m ->
  objs (loaded m w) = objs w
  /\ chunks (self (loaded m w)) = chunks (self w)
  /\ index (self (loaded m w)) = index (self w)
  /\ embedding_model (self (loaded m w)) = Some m.
Proof.
  unfold the_model, loaded.
  destruct (embedding_model (self w)) as [m0|] eqn:Em; intros Hm.
  - injection Hm as ->. auto.
  - simpl. auto.
Qed.

(** The loop of [search] only appends objects. *)
Lemma collect_frame r : forall w results w',
  collect r w = (results, w') ->
  self w' = self w /\ exists extra, objs w' = objs w ++ extra.
Proof.
  induction r as [|[s idx] rest IH]; intros w results w'; simpl.
  - intros [= _ <-]. split; [reflexivity|]. exists []. now rewrite app_nil_r.
  - destruct (idx =? -1); [apply IH|]. run.
    destruct (list_getitem (chunks (self w)) idx) as [c|e];
      [|intros [= _ <-]; split; [reflexivity|];
        exists []; now rewrite app_nil_r].
    destruct (objs w !! c) as [dct|];
      [|intros [= _ <-]; split; [reflexivity|];
        exists []; now rewrite app_nil_r].
    simpl.
    destruct (collect rest _) as [[res|e] w1] eqn:Hc;
      intros [= _ <-]; apply IH in Hc as (Hs & extra & Ho); simpl in *;
      (split; [exact Hs|]); exists (dct :: extra);
      now rewrite Ho, <- app_assoc.
Qed.

(** Each result is the copy of the chunk at one reported label, with the
    score reported for it, and the results follow the order of the
    report. *)
Lemma collect_order r : forall w results w',
  collect r w = (Ok results, w') ->
  Forall2 (fun res e =>
             snd res = fst e
             /\ exists c dct,
                  list_getitem (chunks (self w)) (snd e) = Ok c
                  /\ objs w' !! c = Some dct
                  /\ objs w' !! fst res = Some dct)
          results (filter reported r).
Proof.
  induction r as [|[s idx] rest IH]; intros w results w'; simpl.
  - intros [= <- _]. constructor.
  - rewrite filter_cons. unfold reported at 1. simpl.
    destruct (idx =? -1) eqn:E.
    + apply Z.eqb_eq in E. destruct (decide (idx <> -1)); [contradiction|].
      apply IH.
    + apply Z.eqb_neq in E. destruct (decide (idx <> -1)); [|contradiction].
      run.
      destruct (list_getitem (chunks (self w)) idx) as [c|e] eqn:Hc;
        [|discriminate].
      destruct (objs w !! c) as [dct|] eqn:Hd; [|discriminate].
      simpl.
      destruct (collect rest _) as [[res|e] w1] eqn:Hcol; [|discriminate].
      intros [= <- <-].
      pose proof (collect_frame _ _ _ _ Hcol) as (_ & extra & Ho).
      simpl in Ho.
      constructor.
      * simpl. split; [reflexivity|]. exists c, dct.
        split; [exact Hc|]. rewrite Ho, <- app_assoc. split.
        -- now apply lookup_app_l_Some.
        -- rewrite lookup_app_r by lia. now rewrite Nat.sub_diag.
      * apply IH in Hcol. simpl in Hcol. exact Hcol.
Qed.

(** C6, as the code has it: on an index that honours the FAISS
    contract, a search with [k > 0] returns at most [min(k, ntotal)]
    results, by non-increasing score. [search] does not order anything
    itself: the index is asked for the first row of the normalised
    embedding of the query, and each result is the copy of the chunk at
    one reported label with the score reported for it, in the order of
    the report; so equal scores stand side by side in the order in
    which the index reports them. *)
Theorem search_top_k (w : world) (q : str) (k : Z) (ix : IndexFlatIP)
    (results : list (loc * Z)) (w' : world) :
  flat_contract B -> 0 < k ->
  index (self w) = Some ix ->
  search q k w = (Ok results, w') ->
  len results <= Z.min k (ntotal ix)
  /\ StronglySorted (fun a b : Z => b <= a) (map snd results)
  /\ exists m qe v rest r,
       the_model (self w) = Ok m
       /\ encode m [VStr q] = Ok qe
       /\ normalize_L2 qe = Ok (v :: rest)
       /\ flat_search (d ix) (xb ix) v k = Ok r
       /\ map snd results = map fst (filter reported r)
       /\ Forall2 (fun res e =>
                     snd res = fst e
                     /\ exists c dct,
                          list_getitem (chunks (self w)) (snd e) = Ok c
                          /\ objs w' !! c = Some dct
                          /\ objs w' !! fst res = Some dct)
                  results (filter reported r).
Proof.
  intros Hc Hk Hix Hs.
  apply search_inv in Hs
    as (ix' & m & qe & x & r & Hix' & Hm & Hq & Hn & Hr & Hcol).
  rewrite Hix in Hix'. injection Hix' as <-.
  apply search_row0_inv in Hr as (v & rest & -> & Hr).
  pose proof (collect_order _ _ _ _ Hcol) as Hord.
  destruct (loaded_props m w Hm) as (_ & Hchunks & _ & _).
  rewrite Hchunks in Hord.
  apply collect_scores in Hcol.
  pose proof (fc_shape B Hc _ _ _ _ _ Hk Hr) as Hshape.
  pose proof (fc_labels B Hc _ _ _ _ _ Hk Hr) as Hlab.
  pose proof (fc_distinct B Hc _ _ _ _ _ Hk Hr) as Hnd.
  pose proof (fc_sorted B Hc _ _ _ _ _ Hk Hr) as Hsort.
  assert (Hlen : len results = len (filter reported r)).
  { unfold len. apply (f_equal length) in Hcol.
    rewrite !length_map in Hcol. now rewrite Hcol. }
  split; [|split].
  - assert (H1 : len (filter reported r) <= k).
    { rewrite <- Hshape. unfold len.
      pose proof (length_filter reported r). lia. }
    assert (H2 : len (map snd (filter reported r)) <= Z.max 0 (ntotal ix)).
    { apply distinct_labels_bound; [exact Hnd|].
      apply Forall_fmap, Forall_forall. intros e He.
      apply list_elem_of_filter in He as [Hrep He].
      rewrite Forall_forall in Hlab. specialize (Hlab e He).
      unfold reported in Hrep. unfold compose, ntotal. simpl in *. lia. }
    unfold len in H2. rewrite length_map in H2.
    unfold ntotal, len in *. lia.
  - rewrite Hcol. exact Hsort.
  - exists m, qe, v, rest, r. repeat split; assumption.
Qed.


Lemma collect_unreported r : forall w,
  Forall (fun e => snd e = -1) r -> collect r w = (Ok [], w).
Proof.
  induction r as [|[s idx] rest IH]; intros w Hall; [reflexivity|].
  inversion Hall as [|? ? Hidx Hrest]; subst. simpl in Hidx. subst idx.
  simpl. now apply IH.
Qed.

(** C3, the code on the empty chunk list: when [faiss.normalize_L2]
    rejects what the model returns for the empty batch, [build_index([])]
    does not succeed. The exception reaches the caller, after
    [self.chunks] has been emptied and [self.index] replaced by a new
    index without vectors; nothing in [build_index] looks at the number
    of chunks. *)
Theorem build_index_empty_raises (w : world) (m : model) (rows : list vec)
    (e : exn) :
  consistent (self w) ->
  the_model (self w) = Ok m ->
  encode m [] = Ok rows ->
  normalize_L2 rows = Raise e ->
  build_index [] w
  = (Raise e,
     {| self := {| model_name := model_name (self w);
                   embedding_model := Some m;
                   index := Some {| d := get_sentence_embedding_dimension m;
                                    xb := [] |};
                   chunks := [];
                   dimension := Some (get_sentence_embedding_dimension m) |};
        objs := objs w |}).
Proof.
  intros Hcons Hm Henc Hn.
  destruct w as [[name em ix0 cs0 dm] h].
  unfold build_index, the_model, consistent in *. simpl in *. run.
  destruct em as [m0|]; simpl.
  - injection Hm as ->. rewrite Henc. simpl.
    rewrite (Hcons m eq_refl). simpl. rewrite Hn. reflexivity.
  - rewrite Hm. simpl. rewrite Henc. simpl. rewrite Hn. reflexivity.
Qed.



Lemma list_getitem_elem {A} (l : list A) (i : Z) (a : A) :
  list_getitem l i = Ok a -> a ∈ l.
Proof.
  unfold list_getitem.
  destruct (0 <=? (if i <? 0 then i + len l else i)); [|discriminate].
  destruct (l !! _) as [x|] eqn:E; [|discriminate].
  intros [= <-]. now apply list_elem_of_lookup_2 in E.
Qed.

(** [gather] reads the object store at the chunk references only. *)
Lemma gather_ext cs (h h' : heap) r :
  (forall l, l ∈ cs -> h' !! l = h !! l) ->
  gather cs h' r = gather cs h r.
Proof.
  intros Hagree. induction r as [|[s idx] rest IH]; [reflexivity|].
  simpl. destruct (idx =? -1); [exact IH|].
  destruct (list_getitem cs idx) as [c|e] eqn:Hc; [|reflexivity].
  rewrite (Hagree c (list_getitem_elem _ _ _ Hc)), IH. reflexivity.
Qed.

Lemma valid_refs_lt (w : world) l :
  valid_refs w = true -> l ∈ chunks (self w) -> (l < length (objs w))%nat.
Proof.
  unfold valid_refs. rewrite forallb_forall. intros Hv Hl.
  apply list_elem_of_In in Hl. apply Hv in Hl. now apply Nat.ltb_lt in Hl.
Qed.

(** The loop of [search] appends one copy per reported entry, in the
    order of the report, and returns their references. *)
Lemma collect_gather r : forall w,
  valid_refs w = true ->
  match gather (chunks (self w)) (objs w) r with
  | Ok ds =>
      collect r w
      = (Ok (zip (seq (length (objs w)) (length ds)) (map snd ds)),
         {| self := self w; objs := objs w ++ map fst ds |})
  | Raise e => exists w', collect r w = (Raise e, w')
  end.
Proof.
  induction r as [|[s idx] rest IH]; intros w Hv; simpl.
  - rewrite app_nil_r. now destruct w.
  - destruct (idx =? -1); [now apply IH|]. run.
    destruct (list_getitem (chunks (self w)) idx) as [c|e] eqn:Hc;
      [|now exists w].
    destruct (objs w !! c) as [dct|] eqn:Hd; [|now exists w].
    simpl.
    set (w1 := {| self := self w; objs := objs w ++ [dct] |}).
    assert (Hv1 : valid_refs w1 = true).
    { unfold valid_refs in *. rewrite forallb_forall in *.
      intros l Hl. specialize (Hv l Hl). apply Nat.ltb_lt in Hv.
      apply Nat.ltb_lt. simpl. rewrite length_app. simpl. lia. }
    assert (Hg : gather (chunks (self w1)) (objs w1) rest
                 = gather (chunks (self w)) (objs w) rest).
    { apply gather_ext. intros l Hl. simpl.
      apply lookup_app_l. now apply valid_refs_lt. }
    specialize (IH w1 Hv1). rewrite Hg in IH.
    destruct (gather (chunks (self w)) (objs w) rest) as [ds|e].
    + rewrite IH. simpl. rewrite length_app. simpl.
      rewrite Nat.add_1_r, <- app_assoc. reflexivity.
    + destruct IH as (w' & ->). now exists w'.
Qed.

Lemma gather_contents cs (h : heap) r ds :
  gather cs h r = Ok ds ->
  Forall (fun e => exists l, l ∈ cs /\ h !! l = Some (fst e)) ds.
Proof.
  revert ds. induction r as [|[s idx] rest IH]; intros ds; simpl.
  - intros [= <-]. constructor.
  - destruct (idx =? -1); [apply IH|].
    destruct (list_getitem cs idx) as [c|e] eqn:Hc; [|discriminate].
    destruct (h !! c) as [dct|] eqn:Hd; [|discriminate].
    destruct (gather cs h rest) as [ds'|e]; [|discriminate].
    intros [= <-]. constructor; [|now apply IH].
    exists c. split; [now apply list_getitem_elem in Hc|exact Hd].
Qed.

(** The result list built by the loop, and what its references hold. *)
Lemma copies_lookup (h : heap) (ds : list (dict * Z)) (i : nat)
    (res : loc * Z) :
  zip (seq (length h) (length ds)) (map snd ds) !! i = Some res ->
  exists e, ds !! i = Some e
            /\ res = ((length h + i)%nat, snd e)
            /\ (h ++ map fst ds) !! fst res = Some (fst e).
Proof.
  intros H. apply lookup_zip_with_Some in H as (l & sc & -> & Hl & Hsc).
  apply lookup_seq in Hl as [-> Hi].
  change (map snd ds) with (snd <$> ds) in Hsc.
  rewrite list_lookup_fmap in Hsc.
  destruct (ds !! i) as [e|] eqn:He; [|discriminate].
  injection Hsc as <-. exists e. split; [reflexivity|]. split; [reflexivity|].
  simpl. rewrite lookup_app_r by lia.
  replace (length h + i - length h)%nat with i by lia.
  change (map fst ds) with (fst <$> ds).
  now rewrite list_lookup_fmap, He.
Qed.

Lemma copies_scores (n : nat) (ds : list (dict * Z)) :
  map snd (zip (seq n (length ds)) (map snd ds)) = map snd ds.
Proof.
  apply (snd_zip (seq n (length ds)) (map snd ds)).
  rewrite length_seq, length_map. lia.
Qed.

(** C10: [search] changes neither the store's sequence of chunk
    references nor any existing object; each result is a new object
    holding the content of a stored chunk. So after any assignment to a
    returned chunk the stored chunks read as before, and the same
    search returns the same scores with the same chunk contents. *)
Theorem search_returns_copies (w : world) (q : str) (k : Z)
    (results : list (loc * Z)) (w' : world) :
  valid_refs w = true ->
  search q k w = (Ok results, w') ->
  chunks (self w') = chunks (self w)
  /\ (forall l, (l < length (objs w))%nat -> objs w' !! l = objs w !! l)
  /\ Forall (fun res =>
               (length (objs w) <= fst res < length (objs w'))%nat
               /\ exists l dct, l ∈ chunks (self w)
                                /\ objs w !! l = Some dct
                                /\ objs w' !! fst res = Some dct) results
  /\ forall c dct, c ∈ map fst results ->
       let mutated := {| self := self w'; objs := <[c := dct]> (objs w') |} in
       (forall l, l ∈ chunks (self mutated) ->
                  objs mutated !! l = objs w !! l)
       /\ exists results2 w2,
            search q k mutated = (Ok results2, w2)
            /\ map snd results2 = map snd results
            /\ Forall2 (fun a b => objs w2 !! fst a = objs w' !! fst b)
                       results2 results.
Proof.
  intros Hv Hs.
  apply search_inv in Hs
    as (ix & m & qe & x & r & Hix & Hm & Hq & Hn & Hr & Hcol).
  destruct (loaded_props m w Hm) as (Hobjs & Hchunks & Hindex & Hmodel).
  assert (Hvl : valid_refs (loaded m w) = true).
  { unfold valid_refs. now rewrite Hobjs, Hchunks. }
  pose proof (collect_gather r (loaded m w) Hvl) as Hcg.
  rewrite Hobjs, Hchunks in Hcg.
  destruct (gather (chunks (self w)) (objs w) r) as [ds|e] eqn:Hg.
  2:{ destruct Hcg as (w0 & Hw0). congruence. }
  rewrite Hcg in Hcol. injection Hcol as <- <-. simpl.
  pose proof (gather_contents _ _ _ _ Hg) as Hcont.
  assert (Hfresh : forall c, c ∈ map fst (zip (seq (length (objs w)) (length ds))
                                              (map snd ds)) ->
                   (length (objs w) <= c < length (objs w ++ map fst ds))%nat).
  { intros c Hc. apply list_elem_of_fmap in Hc as (res & -> & Hres).
    apply list_elem_of_lookup in Hres as (i & Hi).
    apply copies_lookup in Hi as (e & He & -> & _). simpl.
    apply lookup_lt_Some in He. rewrite length_app, length_map. lia. }
  split; [exact Hchunks|]. split; [|split].
  - intros l Hl. now apply lookup_app_l.
  - apply Forall_lookup_2. intros i res Hi. split.
    + apply Hfresh. apply list_elem_of_fmap_2.
      now apply list_elem_of_lookup_2 in Hi.
    + apply copies_lookup in Hi as (e & He & -> & Hlk).
      rewrite Forall_forall in Hcont.
      destruct (Hcont e) as (l & Hl & Hd);
        [now apply list_elem_of_lookup_2 in He|].
      exists l, (fst e). auto.
  - intros c dct Hc. apply Hfresh in Hc.
    set (h2 := <[c:=dct]> (objs w ++ map fst ds)).
    assert (Hagree : forall l, l ∈ chunks (self w) -> h2 !! l = objs w !! l).
    { intros l Hl. pose proof (valid_refs_lt w l Hv Hl) as Hlt.
      unfold h2. rewrite list_lookup_insert_ne by lia.
      now apply lookup_app_l. }
    split; [rewrite Hchunks; exact Hagree|].
    set (w2 := {| self := self (loaded m w); objs := h2 |}).
    assert (Hm2 : the_model (self w2) = Ok m)
      by (unfold the_model; simpl; now rewrite Hmodel).
    assert (Hl2 : loaded m w2 = w2)
      by (unfold loaded; simpl; now rewrite Hmodel).
    assert (Hv2 : valid_refs w2 = true).
    { unfold valid_refs in *. simpl. rewrite Hchunks.
      rewrite forallb_forall in *. intros l Hl. specialize (Hv l Hl).
      apply Nat.ltb_lt in Hv. apply Nat.ltb_lt.
      unfold h2. rewrite length_insert, length_app. lia. }
    pose proof (collect_gather r w2 Hv2) as Hcg2. simpl in Hcg2.
    rewrite Hchunks in Hcg2.
    rewrite (gather_ext _ (objs w) h2 r Hagree), Hg in Hcg2.
    eexists _, _. split; [|split].
    + rewrite (search_unfold q k w2 ix m); [|simpl; congruence|exact Hm2].
      rewrite Hq, Hn, Hr, Hl2. exact Hcg2.
    + now rewrite !copies_scores.
    + apply Forall2_same_length_lookup_2.
      { rewrite !length_zip_with, !length_seq. reflexivity. }
      intros i a b Ha Hb.
      apply copies_lookup in Ha as (e1 & He1 & -> & Hk1).
      apply copies_lookup in Hb as (e2 & He2 & -> & Hk2).
      rewrite He1 in He2. injection He2 as <-.
      simpl in *. now rewrite Hk1, Hk2.
Qed.


End Index.

(** ** The executable backend honours the FAISS contract *)

Section ReferenceBackend.
Import Reference.

#[local] Instance by_score_total : Total by_score.
Proof. intros a b. unfold by_score. lia. Qed.

#[local] Instance by_score_trans : Transitive by_score.
Proof. intros a b c. unfold by_score. lia. Qed.

Lemma filter_all {A} (P : A -> Prop) `{forall x, Decision (P x)} (l : list A) :
  Forall P l -> filter P l = l.
Proof.
  induction 1 as [|x l Hx Hl IH]; [reflexivity|].
  rewrite filter_cons. destruct (decide (P x)); [|contradiction].
  now rewrite IH.
Qed.

Lemma in_take {A} (x : A) n l : x ∈ take n l -> x ∈ l.
Proof.
  intros Hx. apply elem_of_take in Hx as (i & Hi & _).
  now apply list_elem_of_lookup_2 in Hi.
Qed.

Lemma scored_labels xb q :
  map snd (scored xb q) = map Z.of_nat (seq 0 (length xb)).
Proof.
  unfold scored.
  transitivity (imap (fun i (_ : list Z) => Z.of_nat i) xb).
  - change (snd <$> imap (fun i x => (inner x q, Z.of_nat i)) xb
            = imap (fun i _ => Z.of_nat i) xb).
    rewrite fmap_imap. reflexivity.
  - apply (imap_seq_0 xb Z.of_nat).
Qed.

Lemma top_labels xb q n e :
  e ∈ take n (merge_sort by_score (rev (scored xb q))) ->
  0 <= snd e < len xb.
Proof.
  intros He. apply in_take in He.
  rewrite merge_sort_Permutation, <- Permutation_rev in He.
  assert (Hs : snd e ∈ map snd (scored xb q)) by now apply list_elem_of_fmap_2.
  rewrite scored_labels in Hs.
  apply list_elem_of_fmap in Hs as (i & -> & Hi).
  apply elem_of_seq in Hi. unfold len. lia.
Qed.

Lemma filter_reported_top xb q n pad :
  filter reported (take n (merge_sort by_score (rev (scored xb q)))
                   ++ replicate pad (lowest, -1))
  = take n (merge_sort by_score (rev (scored xb q))).
Proof.
  rewrite filter_app.
  assert (H1 : filter reported (replicate pad (lowest, -1)) = []).
  { induction pad as [|pad IH]; [reflexivity|]. simpl.
    rewrite filter_cons. destruct (decide (reported (lowest, -1))) as [Hr|_];
      [|exact IH].
    exfalso. now apply Hr. }
  rewrite H1, app_nil_r.
  apply filter_all, Forall_forall. intros e He.
  apply top_labels in He. unfold reported. lia.
Qed.

Lemma reference_contract : flat_contract backend.
Proof.
  split; simpl; unfold flat; intros dim xb q k.
  - intros Hk _. destruct (k <=? 0) eqn:E; [lia|reflexivity].
  - intros r Hk. destruct (k <=? 0) eqn:E; [lia|]. intros [= <-].
    unfold len. rewrite length_app, length_replicate, !length_take. lia.
  - intros r Hk. destruct (k <=? 0) eqn:E; [lia|]. intros [= <-].
    apply Forall_app. split.
    + apply Forall_forall. intros e He. right. now apply top_labels in He.
    + apply Forall_replicate. now left.
  - intros r Hk. destruct (k <=? 0) eqn:E; [lia|]. intros [= <-].
    rewrite filter_reported_top.
    change (NoDup (snd <$> take (Z.to_nat k)
                             (merge_sort by_score (rev (scored xb q))))).
    rewrite fmap_take.
    eapply sublist_NoDup; [|apply sublist_take].
    rewrite merge_sort_Permutation, <- Permutation_rev.
    change (NoDup (map snd (scored xb q))). rewrite scored_labels.
    apply (NoDup_fmap_2 Z.of_nat), NoDup_seq.
  - intros r Hk. destruct (k <=? 0) eqn:E; [lia|]. intros [= <-].
    rewrite filter_reported_top.
    change (StronglySorted (fun a b : Z => b <= a)
              (fst <$> take (Z.to_nat k) (merge_sort by_score (rev (scored xb q))))).
    rewrite fmap_take.
    assert (Hs : StronglySorted (fun a b : Z => b <= a)
                   (fst <$> merge_sort by_score (rev (scored xb q)))).
    { apply StronglySorted_fmap with (R1 := by_score);
        [|apply StronglySorted_merge_sort; apply _].
      intros a b Hab. exact Hab. }
    rewrite <- (take_drop (Z.to_nat k)
                  (fst <$> merge_sort by_score (rev (scored xb q)))) in Hs.
    now apply StronglySorted_app_1_l in Hs.
Qed.

End ReferenceBackend.

(** ** The theorems on the executable backend *)

(** Two chunks with the same text get the same score, and the index
    reports the second of them first: the results are not strictly
    descending by score, and the equal scores do not come by ascending
    chunk id, against C6. *)
Lemma search_equal_scores :
  fst (VectorStore.search (u "chat") 2 Reference.built_A)
  = Ok Reference.hits
  /\ ~ StronglySorted (fun a b : loc * Z => snd b < snd a)
         Reference.hits
  /\ map snd Reference.hits = [273340; 273340]
  /\ map (fun res : loc * Z =>
            match VectorStore.objs Reference.searched !! fst res with
            | Some dct => dct !! "chunk_id"%string
            | None => None
            end)
         Reference.hits
     = [Some (VInt 1); Some (VInt 0)].
Proof.
  split; [vm_refl|]. split; [|split; vm_refl]. intros H.
  inversion H as [|? ? _ Hall]; subst.
  inversion Hall as [|? ? Hlt _]; subst. simpl in Hlt. lia.
Qed.

Lemma search_top_k_witness :
  len Reference.hits
  <= Z.min 2 (VectorStore.ntotal Reference.index_A)
  /\ StronglySorted (fun a b : Z => b <= a)
       (map snd Reference.hits)
  /\ exists m qe v rest r,
       VectorStore.the_model (VectorStore.self Reference.built_A) = Ok m
       /\ encode (Backend := Reference.backend) m [VStr (u "chat")] = Ok qe
       /\ normalize_L2 (Backend := Reference.backend) qe = Ok (v :: rest)
       /\ flat_search (Backend := Reference.backend)
            (VectorStore.d Reference.index_A)
            (VectorStore.xb Reference.index_A) v 2
          = Ok r
       /\ map snd Reference.hits = map fst (filter reported r)
       /\ Forall2 (fun (res : loc * Z) (e : Z * Z) =>
                     snd res = fst e
                     /\ exists c dct,
                          VectorStore.list_getitem
                            (VectorStore.chunks
                               (VectorStore.self Reference.built_A))
                            (snd e)
                          = Ok c
                          /\ VectorStore.objs Reference.searched !! c
                             = Some dct
                          /\ VectorStore.objs Reference.searched !! fst res
                             = Some dct)
                  Reference.hits (filter reported r).
Proof.
  apply (search_top_k (B := Reference.backend) Reference.built_A (u "chat") 2
           Reference.index_A Reference.hits Reference.searched
           reference_contract).
  - lia.
  - vm_refl.
  - unfold Reference.searched. apply run_pair. vm_refl.
Defined.

Lemma build_index_empty_raises_witness :
  fst (VectorStore.build_index [] Reference.empty_store)
  = Raise (Exn "IndexError" (u "tuple index out of range"))
  /\ VectorStore.index
       (VectorStore.self
          (snd (VectorStore.build_index [] Reference.empty_store)))
     = Some (@VectorStore.Build_IndexFlatIP Reference.backend 2 []).
Proof.
  rewrite (build_index_empty_raises (B := Reference.backend)
             Reference.empty_store 2 []
             (Exn "IndexError" (u "tuple index out of range"))).
  - split; reflexivity.
  - intros m Hm. discriminate Hm.
  - vm_refl.
  - vm_refl.
  - vm_refl.
Defined.



Lemma search_returns_copies_witness :
  VectorStore.chunks
    (VectorStore.self Reference.searched)
  = VectorStore.chunks (VectorStore.self Reference.built_A)
  /\ exists results2 w2,
       VectorStore.search (u "chat") 2
         {| VectorStore.self :=
              VectorStore.self Reference.searched;
            VectorStore.objs :=
              <[2%nat := {["text"%string := VStr (u "autre")]}]>
                (VectorStore.objs Reference.searched) |}
       = (Ok results2, w2)
       /\ map snd results2 = map snd Reference.hits
       /\ Forall2 (fun a b =>
                     VectorStore.objs w2 !! fst a
                     = VectorStore.objs
                         Reference.searched !! fst b)
                  results2 Reference.hits.
Proof.
  destruct (search_returns_copies (B := Reference.backend)
              Reference.built_A (u "chat") 2
              Reference.hits
              Reference.searched)
    as (Hchunks & _ & _ & Hmut).
  - vm_refl.
  - unfold Reference.searched. apply run_pair. vm_refl.
  - split; [exact Hchunks|].
    apply (Hmut 2%nat {["text"%string := VStr (u "autre")]}).
    left.
Defined.

(** ** More on the segmenter *)

Section SegmenterMore.
Import PDFProcessor.

Lemma flush_tokens cur :
  Forall (fun c => isspace c = false) cur ->
  Forall (fun w => w <> [] /\ Forall (fun c => isspace c = false) w)
         (flush cur).
Proof.
  intros Hcur. destruct cur as [|a cur']; [constructor|].
  unfold flush. constructor; [|constructor]. split.
  - intros H. apply (f_equal (@length N)) in H.
    rewrite length_rev in H. discriminate.
  - apply Forall_rev. exact Hcur.
Qed.

Lemma findall_nonspace_tokens s : forall cur,
  Forall (fun c => isspace c = false) cur ->
  Forall (fun w => w <> [] /\ Forall (fun c => isspace c = false) w)
         (findall_nonspace cur s).
Proof.
  induction s as [|c r IH]; intros cur Hcur; simpl.
  - now apply flush_tokens.
  - destruct (isspace c) eqn:E.
    + apply Forall_app. split; [now apply flush_tokens|].
      apply IH. constructor.
    + apply IH. constructor; assumption.
Qed.

Lemma findall_nonspace_word w : forall cur s,
  Forall (fun c => isspace c = false) w ->
  findall_nonspace cur (w ++ s) = findall_nonspace (rev w ++ cur) s.
Proof.
  induction w as [|c w IH]; intros cur s Hw; [reflexivity|].
  inversion Hw as [|? ? Hc Hw']; subst. simpl. rewrite Hc.
  rewrite IH by assumption. now rewrite <- app_assoc.
Qed.

(** Joining tokens with a space and splitting again gives the tokens. *)
Lemma findall_nonspace_join ws :
  Forall (fun w => w <> [] /\ Forall (fun c => isspace c = false) w) ws ->
  findall_nonspace [] (join (u " ") ws) = ws.
Proof.
  induction 1 as [|w ws [Hne Hw] Hws IH]; [reflexivity|].
  assert (Hflush : flush (rev w) = [w]).
  { unfold flush. destruct (rev w) as [|a l] eqn:E.
    - apply (f_equal (@rev N)) in E. rewrite rev_involutive in E.
      simpl in E. contradiction.
    - rewrite <- E. now rewrite rev_involutive. }
  destruct ws as [|w' ws'].
  - simpl. rewrite <- (app_nil_r w) at 1.
    rewrite findall_nonspace_word by assumption.
    rewrite app_nil_r. simpl. exact Hflush.
  - change (join (u " ") (w :: w' :: ws'))
      with (w ++ 32%N :: join (u " ") (w' :: ws')).
    remember (join (u " ") (w' :: ws')) as rest.
    rewrite findall_nonspace_word by assumption.
    rewrite app_nil_r.
    change (flush (rev w) ++ findall_nonspace [] rest = w :: w' :: ws').
    rewrite Hflush, IH. reflexivity.
Qed.

Lemma slice_tokens {A} (P : A -> Prop) (l : list A) lo hi :
  Forall P l -> Forall P (slice l lo hi).
Proof. intros H. unfold slice. now apply Forall_take, Forall_drop. Qed.

Lemma slice_clamped {A} (l : list A) (i n : Z) :
  0 <= i + n -> slice l i (i + n) = slice l i (Z.min (i + n) (len l)).
Proof.
  intros H. unfold slice, slice_bound.
  destruct (i + n <? 0) eqn:E1; [lia|].
  destruct (Z.min (i + n) (len l) <? 0) eqn:E2.
  { apply Z.ltb_lt in E2. unfold len in E2. lia. }
  now rewrite <- Z.min_assoc, Z.min_id.
Qed.

Lemma slice_all {A} (l : list A) : slice l 0 (len l) = l.
Proof.
  unfold slice, slice_bound, len. simpl.
  destruct (Z.ltb_spec (Z.of_nat (length l)) 0); [lia|].
  rewrite Z.min_id, Z.min_l by lia. simpl.
  rewrite Z.sub_0_r, Nat2Z.id. apply firstn_all.
Qed.

Lemma window_faithful self words id i :
  Forall (fun w => w <> [] /\ Forall (fun c => isspace c = false) w) words ->
  0 <= i + chunk_size self ->
  faithful words (window self words id i).
Proof.
  intros Hw Hi.
  exists (join (u " ") (slice words i (i + chunk_size self))), i,
         (Z.min (i + chunk_size self) (len words)).
  assert (Hrt : findall_nonspace []
                  (join (u " ") (slice words i (i + chunk_size self)))
                = slice words i (i + chunk_size self))
    by (apply findall_nonspace_join, slice_tokens, Hw).
  split; [reflexivity|]. split; [split; reflexivity|].
  split; [rewrite Hrt; now apply slice_clamped|].
  split; [rewrite Hrt; reflexivity|reflexivity].
Qed.

Lemma windows_forall (P : dict -> Prop) self words idxs : forall acc,
  Forall P acc ->
  (forall id i, In i idxs -> P (window self words id i)) ->
  Forall P (windows self words idxs acc).
Proof.
  induction idxs as [|i rest IH]; intros acc Hacc Hnew; simpl; [exact Hacc|].
  assert (Hacc' : Forall P (acc ++ [window self words (len acc) i])).
  { apply Forall_app. split; [exact Hacc|].
    constructor; [|constructor]. apply Hnew. now left. }
  destruct (len words <=? i + chunk_size self); [exact Hacc'|].
  apply IH; [exact Hacc'|]. intros id j Hj. apply Hnew. now right.
Qed.


(** X1: with a chunk size that is not negative, splitting the text of a
    chunk into tokens again gives exactly the tokens of the document
    from [start_word] to [end_word]; [word_count] is the number of
    tokens of the chunk's text and [char_count] its length. *)
Theorem create_chunks_retokenize (self : t) (text : str) (chunks : list dict) :
  0 <= chunk_size self ->
  create_chunks self text = Ok chunks ->
  Forall (faithful (findall_nonspace [] text)) chunks.
Proof.
  intros Hc Hrun. unfold create_chunks in Hrun.
  set (words := findall_nonspace [] text) in *.
  assert (Hw : Forall (fun w => w <> [] /\ Forall (fun c => isspace c = false) w)
                      words)
    by (apply findall_nonspace_tokens; constructor).
  destruct (strip text) as [|c0 r0] eqn:Es.
  { injection Hrun as <-. constructor. }
  destruct (len words <=? chunk_size self) eqn:E.
  { injection Hrun as <-. constructor; [|constructor].
    exists text, 0, (len words). fold words.
    split; [reflexivity|]. split; [split; reflexivity|].
    split; [now rewrite slice_all|]. split; reflexivity. }
  assert (HT : 0 < len words) by lia.
  destruct (Z.lt_trichotomy (chunk_size self - overlap self) 0)
    as [Hneg|[Hzero|Hpos]].
  - rewrite range_backward in Hrun by lia. injection Hrun as <-. constructor.
  - rewrite Hzero in Hrun. discriminate.
  - rewrite range_forward in Hrun by lia. injection Hrun as <-.
    apply windows_forall; [constructor|].
    intros id i Hi. apply window_faithful; [exact Hw|].
    apply in_map_iff in Hi as (j & <- & Hj). nia.
Qed.

Lemma create_chunks_retokenize_witness :
  Forall (faithful (findall_nonspace [] (u "a b  c d e f g")))
         (windows {| chunk_size := 3; overlap := 1 |}
            (findall_nonspace [] (u "a b  c d e f g")) [0; 2; 4; 6] []).
Proof.
  apply (create_chunks_retokenize {| chunk_size := 3; overlap := 1 |}).
  - simpl. lia.
  - vm_refl.
Defined.

(** X2: [create_chunks] raises in one case only: a text that is not
    blank, with more tokens than [chunk_size], when [overlap] equals
    [chunk_size]; the exception is the [ValueError] of [range] for a
    zero step. *)
Theorem create_chunks_raises (self : t) (text : str) (e : exn) :
  create_chunks self text = Raise e
  <-> forallb isspace text = false
      /\ chunk_size self < len (findall_nonspace [] text)
      /\ overlap self = chunk_size self
      /\ e = Exn "ValueError" (u "range() arg 3 must not be zero").
Proof.
  unfold create_chunks. set (words := findall_nonspace [] text).
  destruct (strip text) as [|c0 r0] eqn:Es.
  { apply strip_nil in Es. split; [discriminate|]. intros (H & _). congruence. }
  assert (Hb : forallb isspace text = false).
  { destruct (forallb isspace text) eqn:E; [|reflexivity].
    apply strip_nil in E. congruence. }
  destruct (Z.leb_spec (len words) (chunk_size self)) as [Hle|Hlt].
  { split; [discriminate|]. intros (_ & H & _). lia. }
  unfold range.
  destruct (Z.eqb_spec (chunk_size self - overlap self) 0) as [Hz|Hnz].
  - split.
    + intros [= <-]. repeat split; [exact Hb|exact Hlt|lia].
    + intros (_ & _ & _ & ->). reflexivity.
  - split; [discriminate|]. intros (_ & _ & H & _). lia.
Qed.

(** X3: when [overlap] is larger than [chunk_size], a text with more
    tokens than [chunk_size] yields no chunk at all, without an
    exception: the step of the loop is negative and its range empty. *)
Theorem create_chunks_negative_step (self : t) (text : str) :
  chunk_size self < overlap self ->
  chunk_size self < len (findall_nonspace [] text) ->
  create_chunks self text = Ok [].
Proof.
  intros Hov HT. unfold create_chunks.
  destruct (strip text) as [|c0 r0] eqn:Es; [reflexivity|].
  destruct (Z.leb_spec (len (findall_nonspace [] text)) (chunk_size self));
    [lia|].
  unfold range.
  destruct (Z.eqb_spec (chunk_size self - overlap self) 0); [lia|].
  destruct (Z.ltb_spec 0 (chunk_size self - overlap self)); [lia|].
  destruct (Z.ltb_spec (len (findall_nonspace [] text)) 0);
    [unfold len in *; lia|].
  reflexivity.
Qed.

Lemma create_chunks_negative_step_witness :
  create_chunks {| chunk_size := 2; overlap := 3 |} (u "a b c d e") = Ok [].
Proof.
  apply create_chunks_negative_step.
  - simpl. lia.
  - vm_compute. reflexivity.
Defined.


Lemma create_chunks_raises_witness :
  create_chunks {| chunk_size := 2; overlap := 2 |} (u "a b c d e")
  = Raise (Exn "ValueError" (u "range() arg 3 must not be zero")).
Proof.
  apply (proj2 (create_chunks_raises {| chunk_size := 2; overlap := 2 |}
                  (u "a b c d e") _)).
  repeat split; vm_compute; reflexivity.
Defined.

(** X4: with [0 <= overlap < chunk_size] and [T > chunk_size] tokens,
    the number of chunks is one more than [T - chunk_size] divided by
    the step [chunk_size - overlap], rounded up. *)
Theorem create_chunks_count (self : t) (text : str) :
  let T := len (findall_nonspace [] text) in
  let step := chunk_size self - overlap self in
  0 <= overlap self < chunk_size self -> chunk_size self < T ->
  exists chunks,
    create_chunks self text = Ok chunks
    /\ len chunks = (T - chunk_size self + step - 1) / step + 1.
Proof.
  intros T step Hov HT.
  destruct (create_chunks_windows self text Hov HT)
    as (m & Hrun & Hm & Hin & Hfull & Hend).
  unfold reaches_end in Hfull, Hend. fold T step in Hfull, Hend.
  exists (map (nth_window self (findall_nonspace [] text)) (seq 0 m)).
  split; [exact Hrun|].
  unfold len at 1. rewrite length_map, length_seq.
  assert (Hstep : 0 < step) by (unfold step; lia).
  assert (Hq : Z.of_nat (m - 1) = (T - chunk_size self + step - 1) / step).
  { apply (Z.div_unique _ _ _
             (T - chunk_size self + step - 1 - step * Z.of_nat (m - 1)));
      [|lia].
    left. destruct (decide (m = 1)%nat) as [->|Hne].
    - simpl in *. lia.
    - specialize (Hfull (m - 2)%nat ltac:(lia)).
      replace (Z.of_nat (m - 2)) with (Z.of_nat (m - 1) - 1) in Hfull by lia.
      nia. }
  lia.
Qed.

Lemma create_chunks_count_witness :
  exists chunks,
    create_chunks default (concat (replicate 1200 (u "mot "))) = Ok chunks
    /\ len chunks = 3.
Proof.
  destruct (create_chunks_count default (concat (replicate 1200 (u "mot "))))
    as (chunks & Hrun & Hlen).
  - simpl. lia.
  - vm_compute. reflexivity.
  - exists chunks. split; [exact Hrun|]. rewrite Hlen.
    vm_compute. reflexivity.
Defined.

(** X5: under the same conditions every chunk but the last holds
    exactly [chunk_size] words, and the last one holds the words that
    remain from its start, at least one and at most [chunk_size]. *)
Theorem create_chunks_sizes (self : t) (text : str) :
  let T := len (findall_nonspace [] text) in
  let step := chunk_size self - overlap self in
  0 <= overlap self < chunk_size self -> chunk_size self < T ->
  exists chunks,
    create_chunks self text = Ok chunks
    /\ forall (j : nat) c, chunks !! j = Some c ->
         exists wc,
           int_field "word_count" c = Some wc
           /\ 1 <= wc <= chunk_size self
           /\ ((S j < length chunks)%nat -> wc = chunk_size self)
           /\ (S j = length chunks -> wc = T - Z.of_nat j * step).
Proof.
  intros T step Hov HT.
  destruct (create_chunks_windows self text Hov HT)
    as (m & Hrun & Hm & Hin & Hfull & Hend).
  unfold reaches_end in Hfull, Hend. fold T step in Hin, Hfull, Hend.
  set (words := findall_nonspace [] text) in *.
  exists (map (nth_window self words) (seq 0 m)).
  split; [exact Hrun|]. intros j c Hl.
  rewrite length_map, length_seq.
  rewrite list_lookup_fmap in Hl.
  destruct (seq 0 m !! j) as [j'|] eqn:Ej; [|discriminate].
  apply lookup_seq in Ej as [-> Hj]. simpl in Hl. injection Hl as <-.
  specialize (Hin j Hj).
  exists (Z.min (Z.of_nat j * step + chunk_size self) T - Z.of_nat j * step).
  split.
  - unfold nth_window, window. fold step.
    rewrite len_slice by (fold T; nia). reflexivity.
  - split; [nia|]. split.
    + intros Hlt. specialize (Hfull j Hlt). lia.
    + intros Heq. replace (m - 1)%nat with j in Hend by lia. lia.
Qed.

Lemma create_chunks_sizes_witness :
  exists wc,
    int_field "word_count"
      (nth_window default
         (findall_nonspace [] (concat (replicate 1200 (u "mot ")))) 2)
    = Some wc
    /\ 1 <= wc <= 500.
Proof.
  destruct (create_chunks_sizes default (concat (replicate 1200 (u "mot "))))
    as (chunks & Hrun & Hsz).
  - simpl. lia.
  - vm_compute. reflexivity.
  - assert (Hc : create_chunks default (concat (replicate 1200 (u "mot ")))
                 = Ok (map (nth_window default
                              (findall_nonspace []
                                 (concat (replicate 1200 (u "mot ")))))
                           (seq 0 3))) by vm_refl.
    rewrite Hc in Hrun. injection Hrun as <-.
    destruct (Hsz 2%nat _ eq_refl) as (wc & Hwc & Hb & _).
    exists wc. split; [exact Hwc|exact Hb].
Defined.

End SegmenterMore.

(** ** The cleaning and the pipeline of [process_pdf] *)

Section Cleaning.
Import PDFProcessor.

Lemma lstrip_forall (P : N -> Prop) s : Forall P s -> Forall P (lstrip s).
Proof.
  induction 1 as [|c r Hc Hr IH]; simpl; [constructor|].
  destruct (isspace c); [exact IH|now constructor].
Qed.

Lemma strip_forall (P : N -> Prop) s : Forall P s -> Forall P (strip s).
Proof.
  intros H. unfold strip.
  now apply Forall_rev, lstrip_forall, Forall_rev, lstrip_forall.
Qed.

Lemma lstrip_fixed s c r : s = c :: r -> isspace c = false -> lstrip s = s.
Proof. intros -> H. simpl. now rewrite H. Qed.

(** [lstrip] keeps a suffix: what it returns ends like its argument. *)
Lemma lstrip_suffix s : exists p, s = p ++ lstrip s.
Proof.
  induction s as [|c r [p Hp]]; [now exists []|]. simpl.
  destruct (isspace c); [|now exists []].
  exists (c :: p). simpl. now rewrite <- Hp.
Qed.

Lemma lstrip_idempotent s : lstrip (lstrip s) = lstrip s.
Proof.
  destruct (lstrip s) as [|c r] eqn:E; [reflexivity|].
  apply lstrip_head in E. simpl. now rewrite E.
Qed.

Lemma strip_idempotent s : strip (strip s) = strip s.
Proof.
  unfold strip.
  assert (H : lstrip (rev (lstrip (rev (lstrip s))))
              = rev (lstrip (rev (lstrip s)))).
  { destruct (lstrip_suffix (rev (lstrip s))) as [p Hp].
    apply (f_equal (@rev N)) in Hp.
    rewrite rev_involutive, rev_app_distr in Hp.
    destruct (rev (lstrip (rev (lstrip s)))) as [|y l] eqn:E; [reflexivity|].
    simpl in Hp. apply lstrip_head in Hp. simpl. now rewrite Hp. }
  rewrite H, rev_involutive, lstrip_idempotent. reflexivity.
Qed.

Lemma squeeze_forall (P : N -> Prop) p r s : forall b,
  P r -> Forall (fun c => p c = false -> P c) s ->
  Forall P (squeeze p r b s).
Proof.
  induction s as [|c rest IH]; intros b Hr Hs; simpl; [constructor|].
  inversion Hs as [|? ? Hc Hrest]; subst.
  destruct (p c) eqn:E.
  - destruct b; [now apply IH|]. constructor; [exact Hr|now apply IH].
  - constructor; [now apply Hc|now apply IH].
Qed.

Lemma split_on_forall (P : N -> Prop) sep s : forall cur,
  Forall (fun c => c <> sep /\ P c) cur -> Forall P s ->
  Forall (Forall (fun c => c <> sep /\ P c)) (split_on sep cur s).
Proof.
  induction s as [|c rest IH]; intros cur Hcur Hs; simpl.
  - constructor; [|constructor]. now apply Forall_rev.
  - inversion Hs as [|? ? Hc Hrest]; subst.
    destruct (N.eqb_spec c sep) as [->|Hne].
    + constructor; [now apply Forall_rev|]. apply IH; [constructor|exact Hrest].
    + apply IH; [|exact Hrest]. constructor; [split; assumption|exact Hcur].
Qed.

(** X6: a blank text is cleaned to the empty string; otherwise the
    cleaned text is made of lines joined by one newline, each of them
    stripped, at least 3 characters long and free of newlines, tabs and
    control characters. *)
Theorem clean_text_lines (text : str) :
  (forallb isspace text = true -> clean_text text = [])
  /\ exists lines,
       clean_text text = join [10%N] lines
       /\ Forall (fun l => 3 <= len l /\ strip l = l /\ Forall printable l)
                 lines.
Proof.
  unfold clean_text. split.
  - intros Hb. apply strip_nil in Hb. now rewrite Hb.
  - destruct (strip text) as [|c0 r0]; [exists []; split; [reflexivity|constructor]|].
    eexists. split; [reflexivity|].
    apply Forall_forall. intros l Hl.
    apply list_elem_of_filter in Hl as [Hlen Hl].
    apply list_elem_of_In, in_map_iff in Hl as (l0 & <- & Hl0).
    split; [exact Hlen|]. split; [apply strip_idempotent|].
    apply strip_forall.
    match type of Hl0 with In _ (split_on _ _ ?s) =>
      assert (Hs : Forall (fun c => c <> 9%N /\ is_control c = false) s) end.
    { apply Forall_forall. intros c Hc.
      apply list_elem_of_filter in Hc as [Hctl Hc]. split; [|exact Hctl].
      clear Hctl. revert c Hc. apply Forall_forall.
      apply squeeze_forall; [discriminate|].
      apply Forall_forall. intros c _ Hp Hc9. subst c. discriminate Hp. }
    pose proof (split_on_forall _ 10%N _ [] ltac:(constructor) Hs) as Hall.
    rewrite Forall_forall in Hall. apply list_elem_of_In in Hl0.
    specialize (Hall l0 Hl0).
    eapply Forall_impl; [exact Hall|].
    intros c (H10 & H9 & Hctl). repeat split; assumption.
Qed.

End Cleaning.

(** ** The extraction and [process_pdf] *)

Section PageTexts.
Import PDFText.
Context {R : Readers}.

Lemma pages_loop_acc pages : forall text n,
  pages_loop text n pages = text ++ pages_loop [] n pages.
Proof.
  induction pages as [|page rest IH]; intros text n; simpl.
  - now rewrite app_nil_r.
  - destruct page as [page_text|e]; [|apply IH].
    destruct (strip page_text); [apply IH|].
    rewrite (IH ((text ++ page_header n) ++ page_text)).
    rewrite (IH (([] ++ page_header n) ++ page_text)).
    rewrite app_nil_l, <- !app_assoc. reflexivity.
Qed.

Lemma pages_loop_cons page rest n :
  pages_loop [] n (page :: rest)
  = page_part n page ++ pages_loop [] (n + 1) rest.
Proof.
  unfold page_part. cbn [pages_loop].
  destruct page as [page_text|e]; [|reflexivity].
  destruct (strip page_text); [reflexivity|].
  rewrite pages_loop_acc, app_nil_l. reflexivity.
Qed.



Lemma pages_loop_silent pages : forall n,
  Forall silent pages -> pages_loop [] n pages = [].
Proof.
  induction pages as [|page rest IH]; intros n Hall; [reflexivity|].
  inversion Hall as [|? ? Hp Hrest]; subst.
  rewrite pages_loop_cons, IH by assumption. rewrite app_nil_r.
  destruct page as [page_text|e]; simpl in *; [|reflexivity].
  apply strip_nil in Hp. now rewrite Hp.
Qed.

(** X9: [extract_text_from_pdf] raises in two cases only: the file does
    not exist ([FileNotFoundError]), or PyPDF2 cannot open it while
    PyMuPDF is not used or has failed too, and then the exception is
    the one of PyPDF2. A failure of PyMuPDF alone, or of any page,
    never reaches the caller. *)
Theorem extract_text_from_pdf_raises (use_pymupdf : bool) (pdf_path : str)
    (e : exn) :
  extract_text_from_pdf use_pymupdf pdf_path = Raise e
  <-> (path_exists pdf_path = false
       /\ e = Exn "FileNotFoundError"
                (u "Le fichier " ++ pdf_path ++ u " n'existe pas"))
      \/ (path_exists pdf_path = true
          /\ (use_pymupdf = true -> is_ok (fitz_open pdf_path) = false)
          /\ pypdf2_open pdf_path = Raise e).
Proof.
  unfold extract_text_from_pdf, extract_text_from_pdf_pymupdf,
    extract_text_from_pdf_pypdf2.
  destruct (path_exists pdf_path); simpl.
  - destruct use_pymupdf.
    + destruct (fitz_open pdf_path) as [doc|e1]; simpl.
      * split; [discriminate|].
        intros [[H _]|(_ & H & _)]; [discriminate|].
        specialize (H eq_refl). discriminate.
      * destruct (pypdf2_open pdf_path) as [pages|e2].
        -- split; [discriminate|]. intros [[H _]|(_ & _ & H)]; discriminate.
        -- split.
           ++ intros [= <-]. right. auto.
           ++ intros [[H _]|(_ & _ & H)]; [discriminate|congruence].
    + destruct (pypdf2_open pdf_path) as [pages|e2].
      * split; [discriminate|]. intros [[H _]|(_ & _ & H)]; discriminate.
      * split.
        -- intros [= <-]. right. split; [reflexivity|]. split; [discriminate|reflexivity].
        -- intros [[H _]|(_ & _ & H)]; [discriminate|congruence].
  - split.
    + intros [= <-]. left. auto.
    + intros [[_ ->]|(H & _)]; [reflexivity|discriminate].
Qed.

(** X10: when PyMuPDF opens the document, its result is final, even
    with no text at all: if every page raises or is blank the extracted
    text is the empty string and PyPDF2 is not tried. *)
Theorem extract_text_from_pdf_silent (pdf_path : str)
    (doc : list (result str)) :
  path_exists pdf_path = true ->
  fitz_open pdf_path = Ok doc ->
  extract_text_from_pdf true pdf_path = Ok (pages_loop [] 0 doc)
  /\ (Forall silent doc -> extract_text_from_pdf true pdf_path = Ok []).
Proof.
  intros He Hd.
  assert (H : extract_text_from_pdf true pdf_path = Ok (pages_loop [] 0 doc)).
  { unfold extract_text_from_pdf, extract_text_from_pdf_pymupdf.
    now rewrite He, Hd. }
  split; [exact H|]. intros Hs. now rewrite H, pages_loop_silent.
Qed.

End PageTexts.

Section Pipeline.
Context {B : Backend}.
Import PDFProcessor.

Lemma create_chunks_total (self : t) (text : str) :
  chunk_size self <> overlap self ->
  exists cs, create_chunks self text = Ok cs.
Proof.
  intros Hne. unfold create_chunks.
  destruct (strip text); [now eexists|].
  destruct (len (findall_nonspace [] text) <=? chunk_size self);
    [now eexists|].
  unfold range.
  destruct (Z.eqb_spec (chunk_size self - overlap self) 0); [lia|].
  now eexists.
Qed.

(** X7: with [chunk_size] different from [overlap], [process_pdf] raises
    exactly when the extraction raises, with the same exception; a
    blank extracted text gives the result marked as failed, with no
    chunk; any other text gives the chunks of its cleaned form, marked
    as a success. *)
Theorem process_pdf_outcomes (self : t) (pdf_path : str) :
  chunk_size self <> overlap self ->
  (forall e, process_pdf self pdf_path = Raise e
             <-> extract_text_from_pdf pdf_path = Raise e)
  /\ (forall raw,
        extract_text_from_pdf pdf_path = Ok raw ->
        forallb isspace raw = true ->
        process_pdf self pdf_path
        = Ok {| raw_text := raw; cleaned_text := [];
                chunks := []; success := false |})
  /\ (forall raw,
        extract_text_from_pdf pdf_path = Ok raw ->
        forallb isspace raw = false ->
        exists cs,
          create_chunks self (clean_text raw) = Ok cs
          /\ process_pdf self pdf_path
             = Ok {| raw_text := raw; cleaned_text := clean_text raw;
                     chunks := cs; success := true |}).
Proof.
  intros Hne. unfold process_pdf. split; [|split].
  - intros e. destruct (extract_text_from_pdf pdf_path) as [raw|e0].
    + split; [|discriminate].
      destruct (strip raw); [discriminate|].
      destruct (create_chunks_total self (clean_text raw) Hne) as [cs ->].
      discriminate.
    + split; intros [= ->]; reflexivity.
  - intros raw -> Hb. apply strip_nil in Hb. now rewrite Hb.
  - intros raw -> Hb.
    destruct (strip raw) eqn:Es.
    { apply strip_nil in Es. congruence. }
    destruct (create_chunks_total self (clean_text raw) Hne) as [cs Hcs].
    exists cs. now rewrite Hcs.
Qed.

End Pipeline.

(** ** More on the embedding index *)

Section IndexMore.
Context {B : Backend}.
Import VectorStore Reading.

Ltac run_vs :=
  repeat (progress (unfold model_encode, load_embedding_model,
                      create_embeddings, copy, deref,
                      bind, get, ret, lift, modify, raise;
                    cbv beta iota)).

Lemma for_each_texts cs : forall w,
  for_each (fun c => dct <- deref c ;; lift (getitem dct "text")) cs w
  = (chunk_texts (objs w) cs, w).
Proof.
  induction cs as [|c rest IH]; intros w; [reflexivity|].
  cbn [for_each chunk_texts]. run_vs.
  destruct (objs w !! c) as [dct|]; [|reflexivity].
  destruct (getitem dct "text") as [t|e]; [|reflexivity].
  rewrite IH. destruct (chunk_texts (objs w) rest); reflexivity.
Qed.

Lemma the_model_loaded m w :
  the_model (self w) = Ok m ->
  (match embedding_model (self w) with
   | None => load_embedding_model
   | Some _ => ret tt
   end) w = (Ok tt, loaded m w).
Proof.
  unfold the_model, loaded. run_vs.
  destruct (embedding_model (self w)) as [m0|] eqn:Em; [reflexivity|].
  run_vs. rewrite Em. intros ->. reflexivity.
Qed.

Lemma the_model_fails e w :
  the_model (self w) = Raise e ->
  (match embedding_model (self w) with
   | None => load_embedding_model
   | Some _ => ret tt
   end) w = (Raise e, w).
Proof.
  unfold the_model. run_vs.
  destruct (embedding_model (self w)) as [m0|] eqn:Em; [discriminate|].
  run_vs. rewrite Em. intros ->. reflexivity.
Qed.

(** [build_index], stage by stage. *)
Lemma build_index_unfold cs w :
  build_index cs w =
    let w1 := set_self (set_chunks cs) w in
    match chunk_texts (objs w) cs with
    | Raise e => (Raise e, w1)
    | Ok texts =>
        match the_model (self w) with
        | Raise e => (Raise e, w1)
        | Ok m =>
            let w2 := loaded m w1 in
            match encode m texts with
            | Raise e => (Raise e, w2)
            | Ok rows =>
                match new_IndexFlatIP (dimension (self w2)) with
                | Raise e => (Raise e, w2)
                | Ok ix =>
                    match normalize_L2 rows with
                    | Raise e => (Raise e, set_self (set_index (Some ix)) w2)
                    | Ok x =>
                        match add ix x with
                        | Raise e =>
                            (Raise e, set_self (set_index (Some ix)) w2)
                        | Ok ix1 =>
                            (Ok tt, set_self (set_index (Some ix1)) w2)
                        end
                    end
                end
            end
        end
    end.
Proof.
  unfold build_index. unfold bind at 1 2. unfold modify at 1.
  rewrite for_each_texts. cbv zeta. simpl objs.
  destruct (chunk_texts (objs w) cs) as [texts|e]; [|reflexivity].
  unfold bind at 1. unfold create_embeddings. unfold bind at 1 2.
  unfold get at 1.
  assert (Hsame : the_model (self (set_self (set_chunks cs) w))
                  = the_model (self w)) by reflexivity.
  destruct (the_model (self w)) as [m|e] eqn:Hm.
  - rewrite (the_model_loaded m _ Hsame).
    assert (Hem : embedding_model (self (loaded m (set_self (set_chunks cs) w)))
                  = Some m).
    { unfold loaded. simpl.
      unfold the_model in Hm.
      destruct (embedding_model (self w)) eqn:Em; simpl; [|reflexivity].
      rewrite Em. congruence. }
    run_vs. rewrite Hem.
    destruct (encode m texts) as [rows|e]; [|reflexivity].
    destruct (new_IndexFlatIP _) as [ix|e]; [|reflexivity].
    destruct (normalize_L2 rows) as [x|e]; [|reflexivity].
    destruct (add ix x); reflexivity.
  - rewrite (the_model_fails e _ Hsame). reflexivity.
Qed.


(** Whatever its outcome, [build_index] installs the chunk list and
    touches no object. *)
Lemma build_index_any (cs : list loc) (w w' : world) r :
  build_index cs w = (r, w') ->
  chunks (self w') = cs /\ objs w' = objs w
  /\ (r = Ok tt -> index (self w') <> None).
Proof.
  rewrite build_index_unfold. cbv zeta.
  assert (Hl : forall m, chunks (self (loaded m (set_self (set_chunks cs) w))) = cs
                         /\ objs (loaded m (set_self (set_chunks cs) w)) = objs w).
  { intros m. unfold loaded. simpl.
    destruct (embedding_model (self w)); simpl; auto. }
  destruct (chunk_texts (objs w) cs) as [texts|e].
  2:{ intros [= <- <-]. simpl. repeat split; auto; discriminate. }
  destruct (the_model (self w)) as [m|e].
  2:{ intros [= <- <-]. simpl. repeat split; auto; discriminate. }
  destruct (Hl m) as [Hc Ho].
  destruct (encode m texts) as [rows|e].
  2:{ intros [= <- <-]. repeat split; auto; discriminate. }
  destruct (new_IndexFlatIP _) as [ix|e].
  2:{ intros [= <- <-]. repeat split; auto; discriminate. }
  destruct (normalize_L2 rows) as [x|e].
  2:{ intros [= <- <-]. repeat split; auto; discriminate. }
  destruct (add ix x) as [ix1|e];
    intros [= <- <-]; simpl; repeat split; auto; discriminate.
Qed.

Lemma loaded_frame m (w : world) :
  objs (loaded m w) = objs w
  /\ chunks (self (loaded m w)) = chunks (self w)
  /\ index (self (loaded m w)) = index (self w)
  /\ model_name (self (loaded m w)) = model_name (self w).
Proof. unfold loaded. destruct (embedding_model (self w)); simpl; auto. Qed.

(** X11: a successful [build_index] replaces the index wholesale: the
    store holds the given chunk list and an index whose rows are the
    normalised embeddings of the chunks' texts and nothing else,
    whatever index was there before; no object is touched. When the
    normalised array has one row per chunk, the index has as many
    vectors as there are chunks. *)
Theorem build_index_replaces (cs : list loc) (w w' : world) :
  build_index cs w = (Ok tt, w') ->
  exists m texts rows x dim,
    the_model (self w) = Ok m
    /\ chunk_texts (objs w) cs = Ok texts
    /\ encode m texts = Ok rows
    /\ normalize_L2 rows = Ok x
    /\ index (self w') = Some {| d := dim; xb := x |}
    /\ Forall (fun v => vdim v = dim) x
    /\ chunks (self w') = cs
    /\ embedding_model (self w') = Some m
    /\ dimension (self w') = Some dim
    /\ model_name (self w') = model_name (self w)
    /\ objs w' = objs w
    /\ (length x = length cs ->
        ntotal {| d := dim; xb := x |} = len (chunks (self w'))).
Proof.
  rewrite build_index_unfold. cbv zeta.
  destruct (chunk_texts (objs w) cs) as [texts|e]; [|discriminate].
  destruct (the_model (self w)) as [m|e] eqn:Hm; [|discriminate].
  destruct (encode m texts) as [rows|e] eqn:He; [|discriminate].
  set (w2 := loaded m (set_self (set_chunks cs) w)).
  assert (Hm2 : the_model (self (set_self (set_chunks cs) w)) = Ok m)
    by exact Hm.
  destruct (loaded_props m _ Hm2) as (Ho & Hc & Hi & Hem). fold w2 in Ho, Hc, Hi, Hem.
  destruct (loaded_frame m (set_self (set_chunks cs) w)) as (_ & _ & _ & Hn).
  fold w2 in Hn.
  destruct (dimension (self w2)) as [dim|] eqn:Hd; [|discriminate].
  unfold new_IndexFlatIP.
  destruct (normalize_L2 rows) as [x|e] eqn:Hx; [|discriminate].
  unfold add. simpl.
  destruct (forallb _ x) eqn:Hf; [|discriminate].
  intros [= <-]. exists m, texts, rows, x, dim. simpl.
  repeat split; try assumption; try reflexivity.
  - rewrite forallb_forall in Hf. apply List.Forall_forall.
    intros v Hv. now apply Z.eqb_eq, Hf.
  - intros Hlen. unfold ntotal, len. simpl. rewrite Hc. simpl.
    now rewrite Hlen.
Qed.

Lemma loaded_dimension m (w : world) (cs : list loc) :
  dimension (self (loaded m (set_self (set_chunks cs) w)))
  = dimension (self (loaded m w))
  /\ embedding_model (self (loaded m (set_self (set_chunks cs) w)))
     = embedding_model (self (loaded m w)).
Proof. unfold loaded. simpl. destruct (embedding_model (self w)); auto. Qed.

(** X12: a failed [build_index] has already installed the new chunk
    list, and no object is touched. The index is the former one when the
    failure comes from reading the texts, from loading the model, from
    encoding or from creating the index; it is a new index with no
    vector, of the dimension of the model, when the failure comes from
    [faiss.normalize_L2] or from adding the rows. *)
Theorem build_index_failure (cs : list loc) (w w' : world) (e : exn) :
  build_index cs w = (Raise e, w') ->
  chunks (self w') = cs
  /\ objs w' = objs w
  /\ model_name (self w') = model_name (self w)
  /\ ((index (self w') = index (self w)
       /\ (chunk_texts (objs w) cs = Raise e
           \/ exists texts,
                chunk_texts (objs w) cs = Ok texts
                /\ (the_model (self w) = Raise e
                    \/ exists m,
                         the_model (self w) = Ok m
                         /\ (encode m texts = Raise e
                             \/ exists rows,
                                  encode m texts = Ok rows
                                  /\ new_IndexFlatIP
                                       (dimension (self (loaded m w)))
                                     = Raise e))))
      \/ (exists texts m rows dim,
            chunk_texts (objs w) cs = Ok texts
            /\ the_model (self w) = Ok m
            /\ encode m texts = Ok rows
            /\ dimension (self (loaded m w)) = Some dim
            /\ index (self w') = Some {| d := dim; xb := [] |}
            /\ (normalize_L2 rows = Raise e
                \/ exists x,
                     normalize_L2 rows = Ok x
                     /\ add {| d := dim; xb := [] |} x = Raise e))).
Proof.
  rewrite build_index_unfold. cbv zeta.
  destruct (chunk_texts (objs w) cs) as [texts|e0].
  2:{ intros [= <- <-]. simpl. repeat split. left. auto. }
  destruct (the_model (self w)) as [m|e0] eqn:Hm.
  2:{ intros [= <- <-]. simpl. repeat split. left.
      split; [first [reflexivity|assumption]|]. right. exists texts. auto. }
  set (w2 := loaded m (set_self (set_chunks cs) w)).
  destruct (loaded_frame m (set_self (set_chunks cs) w)) as (Ho & Hc & Hi & Hn).
  destruct (loaded_dimension m w cs) as (Hd & _).
  fold w2 in Ho, Hc, Hi, Hn, Hd. simpl in Ho, Hc, Hi, Hn.
  destruct (encode m texts) as [rows|e0] eqn:He.
  2:{ intros [= <- <-]. repeat split; try assumption. left.
      split; [assumption|]. right. exists texts. split; [first [reflexivity|assumption]|].
      right. exists m. auto. }
  destruct (new_IndexFlatIP (dimension (self w2))) as [ix|e0] eqn:Hix.
  2:{ intros [= <- <-]. repeat split; try assumption. left.
      split; [assumption|]. right. exists texts. split; [first [reflexivity|assumption]|].
      right. exists m. split; [first [reflexivity|assumption]|]. right. exists rows.
      split; [first [reflexivity|assumption]|]. now rewrite <- Hd. }
  assert (Hdim : exists dim, dimension (self (loaded m w)) = Some dim
                             /\ ix = {| d := dim; xb := [] |}).
  { rewrite <- Hd. unfold new_IndexFlatIP in Hix.
    destruct (dimension (self w2)) as [dim|]; [|discriminate].
    injection Hix as <-. now exists dim. }
  destruct Hdim as (dim & Hdim & ->).
  destruct (normalize_L2 rows) as [x|e0] eqn:Hx.
  - destruct (add _ x) as [ix1|e0] eqn:Ha; [discriminate|].
    intros [= <- <-]. simpl. repeat split; try assumption.
    right. exists texts, m, rows, dim. repeat split; try assumption.
    right. now exists x.
  - intros [= <- <-]. simpl. repeat split; try assumption.
    right. exists texts, m, rows, dim. repeat split; try assumption.
    now left.
Qed.


Lemma search_keeps (q : str) (k : Z) (w w' : world)
    (res : result (list (loc * Z))) :
  search q k w = (res, w') ->
  index (self w') = index (self w)
  /\ chunks (self w') = chunks (self w)
  /\ model_name (self w') = model_name (self w)
  /\ (exists extra, objs w' = objs w ++ extra)
  /\ (forall m, embedding_model (self w) = Some m ->
        embedding_model (self w') = Some m
        /\ dimension (self w') = dimension (self w))
  /\ (index (self w) = None ->
        w' = w
        /\ res = Raise (Exn "ValueError"
                          (u "Index non construit. Appelez build_index() d'abord."))).
Proof.
  intros Hs.
  destruct (index (self w)) as [ix|] eqn:Hix.
  2:{ unfold search in Hs. revert Hs. run_vs. rewrite Hix.
      intros [= <- <-]. rewrite Hix.
      split; [reflexivity|]. split; [reflexivity|]. split; [reflexivity|].
      split; [exists []; now rewrite app_nil_r|]. split; [auto|]. auto. }
  assert (Hnil : exists extra, objs w = objs w ++ extra)
    by (exists []; now rewrite app_nil_r).
  destruct (the_model (self w)) as [m|e] eqn:Hm.
  - rewrite (search_unfold q k w ix m Hix Hm) in Hs.
    destruct (loaded_frame m w) as (Ho & Hc & Hi & Hn).
    assert (Hkeep : forall m0, embedding_model (self w) = Some m0 ->
                      loaded m w = w)
      by (intros m0 H0; unfold loaded; now rewrite H0).
    assert (Hl : index (self (loaded m w)) = index (self w)
                 /\ chunks (self (loaded m w)) = chunks (self w)
                 /\ model_name (self (loaded m w)) = model_name (self w)
                 /\ (exists extra, objs (loaded m w) = objs w ++ extra)
                 /\ (forall m0, embedding_model (self w) = Some m0 ->
                       embedding_model (self (loaded m w)) = Some m0
                       /\ dimension (self (loaded m w)) = dimension (self w))).
    { rewrite Ho, Hc, Hi, Hn.
      split; [reflexivity|]. split; [reflexivity|]. split; [reflexivity|].
      split; [exact Hnil|]. intros m0 H0. rewrite (Hkeep m0 H0). auto. }
    destruct (encode m [VStr q]) as [qe|e].
    2:{ injection Hs as <- <-. destruct Hl as (H1 & H2 & H3 & H4 & H5).
        split; [congruence|]. split; [exact H2|]. split; [exact H3|].
        split; [exact H4|]. split; [exact H5|]. intros Hnone; congruence. }
    destruct (normalize_L2 qe) as [x|e].
    2:{ injection Hs as <- <-. destruct Hl as (H1 & H2 & H3 & H4 & H5).
        split; [congruence|]. split; [exact H2|]. split; [exact H3|].
        split; [exact H4|]. split; [exact H5|]. intros Hnone; congruence. }
    destruct (search_row0 ix x k) as [r|e].
    2:{ injection Hs as <- <-. destruct Hl as (H1 & H2 & H3 & H4 & H5).
        split; [congruence|]. split; [exact H2|]. split; [exact H3|].
        split; [exact H4|]. split; [exact H5|]. intros Hnone; congruence. }
    apply collect_frame in Hs as (Hself & extra & Hextra).
    rewrite Hself. destruct Hl as (H1 & H2 & H3 & _ & H5).
    split; [congruence|]. split; [exact H2|]. split; [exact H3|].
    split; [exists extra; now rewrite Hextra, Ho|].
    split; [exact H5|]. intros Hnone; congruence.
  - unfold search in Hs. revert Hs. unfold bind at 1. unfold get at 1.
    cbv beta iota. rewrite Hix. unfold bind at 1.
    rewrite (the_model_fails e w Hm). intros [= <- <-].
    rewrite Hix. split; [reflexivity|]. split; [reflexivity|].
    split; [reflexivity|]. split; [exact Hnil|].
    split; [auto|]. intros Hnone; congruence.
Qed.

(** X13: [search] never changes the index, the chunk list or the model
    name, and it never changes an existing object: it can only load the
    embedding model, when none is loaded, and append the copies it
    returns. Before any [build_index] it raises the [ValueError] of the
    source and leaves the store as it was, without loading the model. *)
Theorem search_frame (q : str) (k : Z) (w w' : world)
    (res : result (list (loc * Z))) :
  search q k w = (res, w') ->
  index (self w') = index (self w)
  /\ chunks (self w') = chunks (self w)
  /\ model_name (self w') = model_name (self w)
  /\ (exists extra, objs w' = objs w ++ extra)
  /\ (forall m, embedding_model (self w) = Some m ->
        embedding_model (self w') = Some m
        /\ dimension (self w') = dimension (self w))
  /\ (index (self w) = None ->
        w' = w
        /\ res = Raise (Exn "ValueError"
                          (u "Index non construit. Appelez build_index() d'abord."))).
Proof. apply search_keeps. Qed.


Lemma gather_total cs (h : heap) r :
  Forall (fun e => snd e = -1 \/ 0 <= snd e < len cs) r ->
  Forall (fun l => (l < length h)%nat) cs ->
  exists ds, gather cs h r = Ok ds.
Proof.
  intros Hr Hcs. induction Hr as [|[s idx] rest Hidx Hrest [ds IH]].
  - now exists [].
  - simpl. destruct (Z.eqb_spec idx (-1)); [now exists ds|].
    simpl in Hidx. destruct Hidx as [?|Hidx]; [contradiction|].
    unfold list_getitem.
    destruct (Z.ltb_spec idx 0); [lia|].
    destruct (Z.leb_spec 0 idx); [|lia].
    destruct (cs !! Z.to_nat idx) as [c|] eqn:Ec.
    2:{ apply lookup_ge_None in Ec. unfold len in Hidx. lia. }
    rewrite Forall_forall in Hcs.
    assert (Hc : (c < length h)%nat)
      by (apply Hcs; now apply list_elem_of_lookup_2 in Ec).
    apply lookup_lt_is_Some in Hc as [dct ->]. rewrite IH. now eexists.
Qed.

(** X14: on a store whose chunk references are valid and whose index
    holds no more vectors than there are chunks, a search with [k > 0]
    that gets through the model and FAISS returns normally: the loop
    over the labels cannot raise. *)
Theorem search_total (w : world) (q : str) (k : Z) (ix : IndexFlatIP)
    (m : model) (qe : list vec) (v : vec) (vs : list vec) :
  flat_contract B -> 0 < k ->
  index (self w) = Some ix ->
  ntotal ix <= len (chunks (self w)) ->
  valid_refs w = true ->
  the_model (self w) = Ok m ->
  encode m [VStr q] = Ok qe ->
  normalize_L2 qe = Ok (v :: vs) ->
  Forall (fun x => vdim x = d ix) (v :: vs) ->
  exists results w', search q k w = (Ok results, w').
Proof.
  intros Hc Hk Hix Hn Hv Hm Hq Hnorm Hdim.
  rewrite (search_unfold q k w ix m Hix Hm), Hq, Hnorm.
  unfold search_row0.
  assert (Hf : forallb (fun x => vdim x =? d ix) (v :: vs) = true).
  { apply forallb_forall. intros x Hx.
    rewrite List.Forall_forall in Hdim. apply Z.eqb_eq. now apply Hdim. }
  rewrite Hf.
  inversion Hdim as [|? ? Hd0 _]; subst.
  pose proof (fc_total B Hc (d ix) (xb ix) v k Hk Hd0) as Htot.
  destruct (flat_search (d ix) (xb ix) v k) as [r|e] eqn:Hr;
    [|discriminate].
  pose proof (fc_labels B Hc _ _ _ _ _ Hk Hr) as Hlab.
  destruct (loaded_props m w Hm) as (Ho & Hch & _ & _).
  assert (Hvl : valid_refs (loaded m w) = true)
    by (unfold valid_refs; now rewrite Ho, Hch).
  pose proof (collect_gather r (loaded m w) Hvl) as Hcg.
  rewrite Ho, Hch in Hcg.
  destruct (gather_total (chunks (self w)) (objs w) r) as [ds Hds].
  - eapply Forall_impl; [exact Hlab|]. intros e He. simpl in *.
    unfold ntotal in Hn. lia.
  - apply List.Forall_forall. intros l Hl.
    apply (valid_refs_lt w l Hv). now apply list_elem_of_In.
  - rewrite Hds in Hcg. rewrite Hcg. now eexists _, _.
Qed.

Lemma for_each_deref cs : forall w,
  Forall (fun l => (l < length (objs w))%nat) cs ->
  exists ds, for_each deref cs w = (Ok ds, w)
             /\ map Some ds = contents (objs w) cs.
Proof.
  induction cs as [|c rest IH]; intros w Hall.
  - now exists [].
  - inversion Hall as [|? ? Hc Hrest]; subst.
    destruct (IH w Hrest) as (ds & Hds & Hcont).
    apply lookup_lt_is_Some in Hc as [dct Hd].
    exists (dct :: ds). cbn [for_each].
    set (fr := for_each deref rest) in *. run_vs. rewrite Hd, Hds.
    split; [reflexivity|]. simpl. now rewrite Hd, Hcont.
Qed.

Lemma alloc_all_spec ds : forall h,
  alloc_all ds h = (seq (length h) (length ds), h ++ ds).
Proof.
  induction ds as [|dct ds IH]; intros h; simpl.
  - now rewrite app_nil_r.
  - rewrite IH. rewrite length_app. simpl.
    rewrite Nat.add_1_r, <- app_assoc. reflexivity.
Qed.

Lemma contents_fresh (h : heap) ds :
  contents (h ++ ds) (seq (length h) (length ds)) = map Some ds.
Proof.
  unfold contents. revert h. induction ds as [|dct ds IH]; intros h.
  - reflexivity.
  - simpl. rewrite lookup_app_r by lia. rewrite Nat.sub_diag. simpl.
    f_equal. specialize (IH (h ++ [dct])).
    rewrite length_app in IH. simpl in IH. rewrite Nat.add_1_r in IH.
    rewrite <- app_assoc in IH. exact IH.
Qed.

Lemma artifacts_differ (path : str) : path ++ u ".faiss" <> path ++ u ".pkl".
Proof. intros H. apply app_inv_head in H. discriminate H. Qed.

(** X15: saving an index and loading it again, into any store, gives
    back the same index, model name and dimension and chunks with the
    same contents, hence the same statistics; the save leaves the
    store as it was and the load keeps the embedding model that the
    loading store had. *)
Theorem save_load_round_trip (fs : gmap str file) (path : str) (w : world)
    (ix : IndexFlatIP) :
  index (self w) = Some ix ->
  valid_refs w = true ->
  exists fs',
    save_index fs path w = (Ok fs', w)
    /\ forall w2, exists w2',
         load_index fs' path w2 = (Ok tt, w2')
         /\ index (self w2') = Some ix
         /\ model_name (self w2') = model_name (self w)
         /\ dimension (self w2') = dimension (self w)
         /\ contents (objs w2') (chunks (self w2'))
            = contents (objs w) (chunks (self w))
         /\ Report.get_stats (self w2') = Report.get_stats (self w)
         /\ embedding_model (self w2') = embedding_model (self w2).
Proof.
  intros Hix Hv.
  destruct (for_each_deref (chunks (self w)) w) as (ds & Hds & Hcont).
  { apply List.Forall_forall. intros l Hl.
    apply (valid_refs_lt w l Hv). now apply list_elem_of_In. }
  eexists. split.
  { unfold save_index, bind, get. cbv beta iota. rewrite Hix.
    cbv beta iota. rewrite Hds. reflexivity. }
  intros w2. unfold load_index.
  rewrite lookup_insert_ne by (apply not_eq_sym, artifacts_differ).
  rewrite !lookup_insert_eq. simpl. run_vs. simpl.
  rewrite alloc_all_spec. eexists. split; [reflexivity|]. simpl.
  split; [reflexivity|]. split; [reflexivity|]. split; [reflexivity|].
  split; [now rewrite contents_fresh|]. split; [|reflexivity].
  unfold Report.get_stats. simpl. rewrite Hix. unfold len.
  rewrite length_seq. apply (f_equal (@length _)) in Hcont.
  unfold contents in Hcont. rewrite !length_map in Hcont. now rewrite Hcont.
Qed.

(** X16: [load_index] is not atomic. Without the [.faiss] artifact it
    raises [FileNotFoundError] and leaves the store untouched; with it
    but without the [.pkl] artifact it raises [FileNotFoundError] after
    the index has been replaced, so the store keeps its former chunks,
    model name and dimension next to the loaded index. *)
Theorem load_index_missing (fs : gmap str file) (path : str) (w : world) :
  (fs !! (path ++ u ".faiss") = None ->
   load_index fs path w
   = (Raise (Exn "FileNotFoundError"
               (u "Index non trouvé: " ++ path ++ u ".faiss")), w))
  /\ (forall ix,
        fs !! (path ++ u ".faiss") = Some (FaissFile ix) ->
        fs !! (path ++ u ".pkl") = None ->
        load_index fs path w
        = (Raise (Exn "FileNotFoundError"
                    (u "Métadonnées non trouvées: " ++ path ++ u ".pkl")),
           {| self := {| model_name := model_name (self w);
                         embedding_model := embedding_model (self w);
                         index := Some ix;
                         chunks := chunks (self w);
                         dimension := dimension (self w) |};
              objs := objs w |})).
Proof.
  split.
  - intros Hf. unfold load_index. rewrite Hf. reflexivity.
  - intros ix Hf Hp. unfold load_index. rewrite Hf, Hp. reflexivity.
Qed.

End IndexMore.

(** ** More on the orchestrator *)

Section OrchestratorMore.
Context {B : Backend}.
Import RAGSystem Session.

Lemma in_vector_store_run {A} (m : M VectorStore.world A) (w : world) :
  in_vector_store m w
  = (fst (m (store_of w)),
     {| self := set_vector_store (VectorStore.self (snd (m (store_of w))))
                                 (self w);
        objs := VectorStore.objs (snd (m (store_of w))) |}).
Proof.
  unfold in_vector_store, store_of.
  now destruct (m _) as [r vw].
Qed.

Lemma prompt_texts_frame cs : forall (w : world) r w',
  for_each (fun c => dct <- deref c ;; lift (getitem dct "text")) cs w
  = (r, w') -> w' = w.
Proof.
  induction cs as [|c rest IH]; intros w r w'; cbn [for_each].
  - intros [= _ <-]. reflexivity.
  - unfold bind at 1 2. unfold deref at 1.
    destruct (objs w !! c) as [dct|]; [|now intros [= _ <-]].
    unfold lift at 1.
    destruct (getitem dct "text") as [t|e]; [|now intros [= _ <-]].
    unfold bind.
    destruct (for_each _ rest w) as [[ts|e] w1] eqn:Hr;
      intros [= _ <-]; now apply IH in Hr.
Qed.

Lemma create_prompt_frame question cs (w : world) r w' :
  create_prompt question cs w = (r, w') -> w' = w.
Proof.
  unfold create_prompt. unfold bind at 1.
  destruct (for_each _ cs w) as [[ts|e] w1] eqn:Hr.
  - apply prompt_texts_frame in Hr as ->. unfold bind, lift, ret.
    destruct (join_values _ 0 ts); now intros [= _ <-].
  - apply prompt_texts_frame in Hr as ->. now intros [= _ <-].
Qed.

Lemma call_generator_frame prompt (w : world) r w' :
  call_generator prompt w = (r, w') -> w' = w.
Proof.
  unfold call_generator, bind, get, lift, raise.
  destruct (generator (self w)); now intros [= _ <-].
Qed.

Lemma source_text_bound v t : source_text v = Ok t -> len t <= 203.
Proof.
  destruct v as [z|s]; [discriminate|]. simpl.
  destruct (Z.ltb_spec 200 (len s)); intros [= <-]; [|lia].
  unfold len in *. rewrite length_app.
  change (slice s 0 200) with (slice s 0 (0 + 200)).
  pose proof (len_slice s 0 200 ltac:(unfold len; lia) ltac:(lia)) as Hs.
  unfold len in Hs. change (length (u "...")) with 3%nat. lia.
Qed.

Lemma format_sources_spec (rs : list (loc * Z)) : forall (i : Z) (w : world)
    (srcs : list source) (w' : world),
  format_sources i rs w = (Ok srcs, w') ->
  w' = w
  /\ map src_score srcs = map (fun res => round3 (snd res)) rs
  /\ Forall (fun src => len (src_text src) <= 203) srcs.
Proof.
  induction rs as [|[chunk s] rest IH]; intros i w srcs w'; cbn [format_sources].
  - intros [= <- <-]. repeat split. constructor.
  - unfold bind at 1. unfold deref at 1.
    destruct (objs w !! chunk) as [dct|]; [|discriminate].
    unfold bind at 1. unfold lift at 1.
    destruct (getitem dct "text") as [t|e]; [|discriminate].
    unfold bind at 1. unfold lift at 1.
    destruct (source_text t) as [t'|e] eqn:Ht; [|discriminate].
    unfold bind, ret.
    destruct (format_sources (i + 1) rest w) as [[srcs'|e] w1] eqn:Hr;
      [|discriminate].
    intros [= <- <-]. destruct (IH _ _ _ _ Hr) as (-> & Hsc & Hlen).
    split; [reflexivity|]. split; [simpl; now rewrite Hsc|].
    constructor; [|exact Hlen]. simpl. now apply source_text_bound in Ht.
Qed.

(** X17: formatting the sources reads the store without changing it and
    gives one source per result, in the same order. The source of the
    result at position [j] carries the [chunk_id] of its chunk, or the
    position when the chunk has none, the rounded score of the result,
    and as text the whole text of the chunk when that has at most 200
    characters, and otherwise its first 200 characters followed by
    ["..."]; so a source text has at most 203 characters. *)
Theorem format_sources_shape (rs : list (loc * Z)) : forall (i : Z) (w : world)
    (srcs : list source) (w' : world),
  format_sources i rs w = (Ok srcs, w') ->
  w' = w
  /\ length srcs = length rs
  /\ forall (j : nat) (res : loc * Z),
       rs !! j = Some res ->
       exists src dct t,
         srcs !! j = Some src
         /\ objs w !! fst res = Some dct
         /\ dct !! "text"%string = Some (VStr t)
         /\ src_chunk_id src
            = default (VInt (i + Z.of_nat j)) (dct !! "chunk_id"%string)
         /\ src_text src
            = (if 200 <? len t then slice t 0 200 ++ u "..." else t)
         /\ len (src_text src) <= 203
         /\ src_score src = round3 (snd res).
Proof.
  induction rs as [|[chunk s] rest IH]; intros i w srcs w'; cbn [format_sources].
  - intros [= <- <-]. split; [reflexivity|]. split; [reflexivity|].
    intros j res Hj. discriminate Hj.
  - unfold bind at 1. unfold deref at 1.
    destruct (objs w !! chunk) as [dct|] eqn:Hd; [|discriminate].
    unfold bind at 1. unfold lift at 1. unfold getitem.
    destruct (dct !! "text"%string) as [v|] eqn:Hv; [|discriminate].
    unfold bind at 1. unfold lift at 1.
    destruct (source_text v) as [t'|e] eqn:Ht; [|discriminate].
    unfold bind, ret.
    destruct (format_sources (i + 1) rest w) as [[srcs'|e] w1] eqn:Hr;
      [|discriminate].
    intros [= <- <-]. destruct (IH _ _ _ _ Hr) as (-> & Hlen & Hall).
    split; [reflexivity|]. split; [simpl; now rewrite Hlen|].
    intros [|j] res Hj.
    + injection Hj as <-. simpl.
      pose proof (source_text_bound _ _ Ht) as Hb.
      destruct v as [z|t]; [discriminate|]. injection Ht as <-.
      eexists _, dct, t. split; [reflexivity|]. simpl.
      rewrite Z.add_0_r. repeat split; auto.
    + simpl in Hj. destruct (Hall j res Hj)
        as (src & dct' & t & Hs & Hd' & Ht' & Hid & Htext & Hb & Hsc).
      exists src, dct', t. simpl. repeat split; auto.
      rewrite Hid. f_equal. f_equal. lia.
Qed.


Lemma format_sources_frame rs : forall i (w : world) r w',
  format_sources i rs w = (r, w') -> w' = w.
Proof.
  induction rs as [|[chunk s] rest IH]; intros i w r w'; cbn [format_sources].
  - now intros [= _ <-].
  - unfold bind at 1. unfold deref at 1.
    destruct (objs w !! chunk) as [dct|]; [|now intros [= _ <-]].
    unfold bind at 1. unfold lift at 1.
    destruct (getitem dct "text") as [t|e]; [|now intros [= _ <-]].
    unfold bind at 1. unfold lift at 1.
    destruct (source_text t) as [t'|e]; [|now intros [= _ <-]].
    unfold bind, ret.
    destruct (format_sources (i + 1) rest w) as [[srcs'|e] w1] eqn:Hr;
      intros [= _ <-]; now apply IH in Hr.
Qed.

Lemma preserved_refl (w : world) : preserved w w.
Proof.
  unfold preserved. repeat split; auto.
  exists []. now rewrite app_nil_r.
Qed.

Lemma preserved_trans (w1 w2 w3 : world) :
  preserved w1 w2 -> preserved w2 w3 -> preserved w1 w3.
Proof.
  unfold preserved.
  intros (a1 & a2 & a3 & a4 & a5 & a6 & a7 & a8 & (x & a9) & a10)
         (b1 & b2 & b3 & b4 & b5 & b6 & b7 & b8 & (y & b9) & b10).
  repeat split; try congruence.
  - exists (x ++ y). now rewrite b9, a9, app_assoc.
  - intros g Hg. apply b10, a10, Hg.
Qed.

(** The lazy loading of the generator at the head of the [try] block. *)
Lemma load_step (w : world) :
  let step := (match generator (self w) with
               | None => load_generation_model
               | Some _ => ret tt
               end) w in
  (exists g, generator (self w) = Some g /\ step = (Ok tt, w))
  \/ (generator (self w) = None
      /\ exists e, pipeline (generation_model_name (self w)) (device (self w))
                   = Raise e
                   /\ step = (Raise e, w))
  \/ (generator (self w) = None
      /\ exists g, pipeline (generation_model_name (self w)) (device (self w))
                   = Ok g
                   /\ step = (Ok tt, set_self (set_generator (Some g)) w)).
Proof.
  cbv zeta. destruct (generator (self w)) as [g|] eqn:Hg.
  - left. now exists g.
  - right. unfold load_generation_model, bind, get, lift, modify.
    rewrite Hg.
    destruct (pipeline _ _) as [g|e].
    + right. split; [reflexivity|]. now exists g.
    + left. split; [reflexivity|]. now exists e.
Qed.

Lemma search_preserved q k (w : world) r w' :
  in_vector_store (VectorStore.search q k) w = (r, w') -> preserved w w'.
Proof.
  rewrite in_vector_store_run.
  destruct (VectorStore.search q k (store_of w)) as [res vw] eqn:Hs.
  intros [= _ <-]. simpl.
  apply search_keeps in Hs as (Hi & Hc & Hn & Hx & _).
  unfold preserved, store_of in *. simpl in *. repeat split; auto.
Qed.

(** After the retrieval the [try] block only reads the session. *)
Lemma answer_tail_frame question (results : list (loc * Z)) (w : world) r w' :
  (prompt <- create_prompt question (map fst results) ;;
   generated <- call_generator prompt ;;
   srcs <- format_sources 0 results ;;
   ret {| answer := strip generated; sources := srcs;
          question_key := Some question;
          status := Some (u "success"); error := None |}) w = (r, w') ->
  w' = w.
Proof.
  unfold bind at 1.
  destruct (create_prompt _ _ w) as [[prompt|e] w1] eqn:Hp;
    apply create_prompt_frame in Hp as ->; [|now intros [= _ <-]].
  unfold bind at 1.
  destruct (call_generator prompt w) as [[generated|e] w1] eqn:Hg;
    apply call_generator_frame in Hg as ->; [|now intros [= _ <-]].
  unfold bind, ret.
  destruct (format_sources 0 results w) as [[srcs|e] w1] eqn:Hf;
    apply format_sources_frame in Hf as ->; now intros [= _ <-].
Qed.

Lemma answer_body_frame question k (w : world) r w' :
  answer_body question k w = (r, w') -> preserved w w'.
Proof.
  unfold answer_body. unfold bind at 1. unfold get at 1. cbv beta iota.
  unfold bind at 1.
  destruct (load_step w) as [(g & Hg & ->)|[(Hg & e & _ & ->)|(Hg & g & _ & ->)]].
  - unfold bind at 1.
    destruct (in_vector_store _ w) as [[results|e] w1] eqn:Hs;
      pose proof (search_preserved _ _ _ _ _ Hs) as Hp;
      [|now intros [= _ <-]].
    destruct results as [|r0 rs]; [now intros [= _ <-]|].
    intros Ht. apply answer_tail_frame in Ht as ->. exact Hp.
  - intros [= _ <-]. apply preserved_refl.
  - assert (Hp0 : preserved w (set_self (set_generator (Some g)) w)).
    { unfold preserved, store_of. simpl. repeat split; auto.
      - exists []. now rewrite app_nil_r.
      - intros g0 H0. congruence. }
    unfold bind at 1.
    destruct (in_vector_store _ _) as [[results|e] w1] eqn:Hs;
      pose proof (search_preserved _ _ _ _ _ Hs) as Hp;
      [|intros [= _ <-]; now apply (preserved_trans _ _ _ Hp0)].
    destruct results as [|r0 rs];
      [intros [= _ <-]; now apply (preserved_trans _ _ _ Hp0)|].
    intros Ht. apply answer_tail_frame in Ht as ->.
    now apply (preserved_trans _ _ _ Hp0).
Qed.

Lemma generate_answer_keeps question k (w : world) r w' :
  generate_answer question k w = (r, w') -> preserved w w'.
Proof.
  unfold generate_answer, bind, get, try_except, ret.
  destruct (is_ready (self w)); simpl.
  - destruct (answer_body question k w) as [[resp|e] w1] eqn:Hb;
      intros [= _ <-]; now apply answer_body_frame in Hb.
  - intros [= _ <-]. apply preserved_refl.
Qed.

(** X18: whatever its outcome, [generate_answer] leaves the session
    ready or not as it was, with the same document, configuration,
    index and chunk list; no existing object changes and a loaded
    generator stays loaded. *)
Theorem generate_answer_frame (question : str) (k : Z) (w w' : world)
    (r : result response) :
  generate_answer question k w = (r, w') -> preserved w w'.
Proof. apply generate_answer_keeps. Qed.


(** The two ways out of [load_pdf]. *)
Lemma load_pdf_cases (path : str) (w : world) r w' :
  load_pdf path w = (r, w') ->
  generator (self w') = generator (self w)
  /\ pdf_processor (self w') = pdf_processor (self w)
  /\ ((exists e,
         PDFProcessor.process_pdf (pdf_processor (self w)) path = Raise e
         /\ r = Raise e /\ w' = set_self (set_is_ready false) w)
      \/ (exists res vr vw,
            PDFProcessor.process_pdf (pdf_processor (self w)) path = Ok res
            /\ VectorStore.build_index
                 (seq (length (objs w)) (length (PDFProcessor.chunks res)))
                 {| VectorStore.self := vector_store (self w);
                    VectorStore.objs := objs w ++ PDFProcessor.chunks res |}
               = (vr, vw)
            /\ objs w' = objs w ++ PDFProcessor.chunks res
            /\ vector_store (self w') = VectorStore.self vw
            /\ ((exists e, vr = Raise e /\ r = Raise e
                           /\ is_ready (self w') = false
                           /\ current_pdf (self w') = current_pdf (self w))
                \/ (vr = Ok tt
                    /\ r = Ok {| pdf_path := path;
                                 nb_chunks := len (PDFProcessor.chunks res);
                                 stats_status := u "Prêt pour les questions" |}
                    /\ is_ready (self w') = true
                    /\ current_pdf (self w') = Some path)))).
Proof.
  unfold load_pdf, try_except, load_pdf_body, bind, get, lift.
  destruct (PDFProcessor.process_pdf _ path) as [res|e] eqn:Hp.
  - unfold new_objects. rewrite alloc_all_spec.
    rewrite in_vector_store_run. simpl.
    destruct (VectorStore.build_index _ _) as [vr vw] eqn:Hb.
    pose proof (build_index_any _ _ _ _ Hb) as (_ & Ho & _).
    simpl in Ho.
    destruct vr as [[]|e].
    + unfold modify, ret. simpl. intros [= <- <-]. simpl.
      repeat split. right. exists res, (Ok tt), vw.
      repeat split; auto. right. repeat split.
      unfold len. now rewrite length_seq.
    + unfold modify, raise. simpl. intros [= <- <-]. simpl.
      repeat split. right. exists res, (Raise e), vw.
      repeat split; auto. left. exists e. repeat split.
  - unfold modify, raise. simpl. intros [= <- <-]. simpl.
    repeat split. left. now exists e.
Qed.

(** X19: when [load_pdf] returns, the session is ready for the given
    path, the statistics count the chunks of [process_pdf], the store's
    chunk list refers to exactly these chunks, in order, as new objects
    behind the existing ones, an index is in place and the generator is
    as before. *)
Theorem load_pdf_success (path : str) (w w' : world) (st : stats) :
  load_pdf path w = (Ok st, w') ->
  exists res,
    PDFProcessor.process_pdf (pdf_processor (self w)) path = Ok res
    /\ st = {| pdf_path := path;
               nb_chunks := len (PDFProcessor.chunks res);
               stats_status := u "Prêt pour les questions" |}
    /\ is_ready (self w') = true
    /\ current_pdf (self w') = Some path
    /\ objs w' = objs w ++ PDFProcessor.chunks res
    /\ Reading.contents (objs w') (VectorStore.chunks (vector_store (self w')))
       = map Some (PDFProcessor.chunks res)
    /\ len (VectorStore.chunks (vector_store (self w'))) = nb_chunks st
    /\ VectorStore.index (vector_store (self w')) <> None
    /\ generator (self w') = generator (self w).
Proof.
  intros H. apply load_pdf_cases in H as (Hg & _ & [(e & _ & [=] & _)|H]).
  destruct H as (res & vr & vw & Hp & Hb & Ho & Hv & [(e & _ & [=] & _)|H]).
  destruct H as (-> & [= ->] & Hr & Hc).
  apply build_index_any in Hb as (Hcs & _ & Hix).
  exists res. repeat split; auto.
  - rewrite Ho, Hv, Hcs. apply contents_fresh.
  - rewrite Hv, Hcs. simpl. unfold len. now rewrite length_seq.
  - rewrite Hv. now apply Hix.
Qed.

Lemma valid_refs_fresh (s : VectorStore.t) (h : heap) (ds : list dict) :
  VectorStore.chunks s = seq (length h) (length ds) ->
  VectorStore.valid_refs {| VectorStore.self := s;
                            VectorStore.objs := h ++ ds |} = true.
Proof.
  intros Hc. unfold VectorStore.valid_refs. simpl. rewrite Hc.
  apply forallb_forall. intros l Hl. apply in_seq in Hl.
  apply Nat.ltb_lt. rewrite length_app. lia.
Qed.

Lemma valid_refs_grows (s s' : VectorStore.t) (h extra : heap) :
  VectorStore.chunks s' = VectorStore.chunks s ->
  VectorStore.valid_refs {| VectorStore.self := s; VectorStore.objs := h |}
  = true ->
  VectorStore.valid_refs {| VectorStore.self := s';
                            VectorStore.objs := h ++ extra |} = true.
Proof.
  unfold VectorStore.valid_refs. simpl. intros -> Hv.
  rewrite forallb_forall in *. intros l Hl. apply Hv in Hl.
  apply Nat.ltb_lt in Hl. apply Nat.ltb_lt. rewrite length_app. lia.
Qed.

Lemma load_pdf_sound (path : str) (w : world) :
  sound w -> sound (snd (load_pdf path w)).
Proof.
  intros (Hv & Hr).
  destruct (load_pdf path w) as [r w'] eqn:H. simpl.
  apply load_pdf_cases in H as (_ & _ & [(e & _ & _ & ->)|H]).
  - split; [exact Hv|]. simpl. discriminate.
  - destruct H as (res & vr & vw & _ & Hb & Ho & Hs & Hcase).
    apply build_index_any in Hb as (Hcs & _ & Hix).
    assert (Hv' : VectorStore.valid_refs (store_of w') = true).
    { unfold store_of. rewrite Ho, Hs. now apply valid_refs_fresh. }
    split; [exact Hv'|].
    destruct Hcase as [(e & _ & _ & Hf & _)|(-> & _ & _ & Hc)].
    + rewrite Hf. discriminate.
    + intros _. unfold store_of. simpl. rewrite Hs. split.
      * now apply Hix.
      * rewrite Hc. discriminate.
Qed.

Lemma generate_answer_sound (question : str) (k : Z) (w : world) :
  sound w -> sound (snd (generate_answer question k w)).
Proof.
  intros (Hv & Hr).
  destruct (generate_answer question k w) as [r w'] eqn:H. simpl.
  apply generate_answer_keeps in H
    as (Hy & Hp & _ & _ & _ & Hi & Hc & _ & (extra & Ho) & _).
  split.
  - unfold store_of in *. rewrite Ho.
    eapply valid_refs_grows; [exact Hc|exact Hv].
  - rewrite Hy, Hi, Hp. exact Hr.
Qed.

Lemma run_sound (calls : list call) : forall w : world,
  sound w -> sound (run calls w).
Proof.
  unfold run. induction calls as [|c calls IH]; intros w Hw; simpl.
  - exact Hw.
  - apply IH. destruct c as [path|question k]; simpl.
    + now apply load_pdf_sound.
    + now apply generate_answer_sound.
Qed.

Lemma start_sound (embedding_model generation_model dev : str) :
  sound (start embedding_model generation_model dev).
Proof. split; [reflexivity|]. simpl. discriminate. Qed.

(** X20: after any sequence of document loads and questions from the
    initial state, successful or not, every chunk reference of the store
    points to an object, and a session that says it is ready has an
    index and a current document. *)
Theorem session_sound (embedding_model generation_model dev : str)
    (calls : list call) :
  sound (run calls (start embedding_model generation_model dev)).
Proof. apply run_sound, start_sound. Qed.

(** X24: in every state that loads and questions can reach from the
    initial one, [get_system_info] either reports a session that is not
    ready, without any index entry, or a ready one with a current
    document and the four index statistics; the entry
    [status: Index non construit] never appears in it. *)
Theorem get_system_info_reachable (embedding_model generation_model dev : str)
    (calls : list call) :
  let info := Report.get_system_info
                (self (run calls (start embedding_model generation_model dev)))
  in
  (Report.info_is_ready info = false /\ Report.index_stats info = None)
  \/ (exists path nb_vectors dimension model,
        Report.info_is_ready info = true
        /\ Report.info_current_pdf info = Some path
        /\ Report.index_stats info
           = Some (Report.Built nb_vectors dimension
                     (len (VectorStore.chunks
                             (vector_store
                                (self (run calls
                                         (start embedding_model
                                                generation_model dev))))))
                     model)).
Proof.
  cbv zeta.
  pose proof (run_sound calls _
                (start_sound embedding_model generation_model dev))
    as (_ & Hr).
  set (w := run calls _) in *.
  unfold Report.get_system_info. simpl.
  destruct (is_ready (self w)); [right|left; auto].
  destruct (Hr eq_refl) as (Hi & Hc).
  unfold store_of in Hi. simpl in Hi. unfold Report.get_stats.
  destruct (VectorStore.index (vector_store (self w))) as [ix|];
    [|contradiction].
  destruct (current_pdf (self w)) as [p|]; [|contradiction].
  now exists p, (VectorStore.ntotal ix),
    (VectorStore.dimension (vector_store (self w))),
    (VectorStore.model_name (vector_store (self w))).
Qed.


Lemma answer_tail_outcome question (results : list (loc * Z)) (w : world)
    resp w' :
  (prompt <- create_prompt question (map fst results) ;;
   generated <- call_generator prompt ;;
   srcs <- format_sources 0 results ;;
   ret {| answer := strip generated; sources := srcs;
          question_key := Some question;
          status := Some (u "success"); error := None |}) w = (Ok resp, w') ->
  error resp = None
  /\ status resp = Some (u "success")
  /\ question_key resp = Some question
  /\ strip (answer resp) = answer resp
  /\ map src_score (sources resp) = map (fun res => round3 (snd res)) results
  /\ Forall (fun src => len (src_text src) <= 203) (sources resp)
  /\ generator (self w) <> None.
Proof.
  unfold bind at 1.
  destruct (create_prompt _ _ w) as [[prompt|e] w1] eqn:Hp;
    apply create_prompt_frame in Hp as ->; [|discriminate].
  unfold bind at 1.
  destruct (call_generator prompt w) as [[generated|e] w1] eqn:Hg;
    [|apply call_generator_frame in Hg as ->; discriminate].
  assert (Hgen : generator (self w) <> None).
  { unfold call_generator, bind, get in Hg.
    destruct (generator (self w)); [discriminate|].
    unfold raise in Hg. discriminate. }
  apply call_generator_frame in Hg as ->.
  unfold bind, ret.
  destruct (format_sources 0 results w) as [[srcs|e] w1] eqn:Hf;
    [|discriminate].
  apply format_sources_spec in Hf as (-> & Hsc & Hlen).
  intros [= <- <-]. simpl. repeat split; auto.
  apply strip_idempotent.
Qed.

(** X21: [generate_answer] always returns a response, of one of four
    kinds: the fixed one of a session that is not ready, the fixed one of
    an empty retrieval, an error response built from a caught exception,
    or a success.  A success has no error tag, carries the question, an
    answer without surrounding whitespace and at least one source, every
    source text being at most 203 characters long. *)
Theorem generate_answer_outcomes (question : str) (k : Z) (w w' : world)
    (r : result response) :
  generate_answer question k w = (r, w') ->
  exists resp,
    r = Ok resp
    /\ ((is_ready (self w) = false /\ resp = no_pdf_response /\ w' = w)
        \/ (is_ready (self w) = true /\ resp = no_content_response)
        \/ (is_ready (self w) = true /\ exists e, resp = error_response e)
        \/ (is_ready (self w) = true
            /\ error resp = None
            /\ status resp = Some (u "success")
            /\ question_key resp = Some question
            /\ strip (answer resp) = answer resp
            /\ sources resp <> []
            /\ Forall (fun src => len (src_text src) <= 203) (sources resp)
            /\ generator (self w') <> None)).
Proof.
  unfold generate_answer, bind, get, try_except, ret.
  destruct (is_ready (self w)) eqn:Hr; simpl.
  2:{ intros [= <- <-]. exists no_pdf_response. split; [reflexivity|].
      left. auto. }
  destruct (answer_body question k w) as [[resp|e] w1] eqn:Hb;
    intros [= <- <-].
  2:{ exists (error_response e). split; [reflexivity|].
      right. right. left. split; [reflexivity|]. now exists e. }
  exists resp. split; [reflexivity|]. right.
  revert Hb. unfold answer_body. unfold bind at 1. unfold get at 1.
  cbv beta iota. unfold bind at 1.
  set (step := match generator (self w) with
               | None => load_generation_model
               | Some _ => ret tt
               end w).
  destruct step as [[[]|e] w2]; [|discriminate].
  unfold bind at 1.
  destruct (in_vector_store _ w2) as [[results|e] w3]; [|discriminate].
  destruct results as [|r0 rs].
  - intros [= <- <-]. left. auto.
  - intros Ht. pose proof Ht as Hw. apply answer_tail_frame in Hw as ->.
    apply answer_tail_outcome in Ht as (He & Hs & Hq & Ha & Hsc & Hl & Hg).
    right. right. repeat split; auto.
    intros Hn. rewrite Hn in Hsc. discriminate.
Qed.

End OrchestratorMore.

(** ** The user interface *)

Section Interface.
Context {B : Backend}.
Context (basename : str -> str) (float_str : Z -> str).
Import RAGSystem Session App.

(** X22: [chat_with_pdf] never raises: it returns the history with
    exactly one exchange appended, whose first part is the message, and
    an empty text box.  It leaves the readiness, the document and the
    index of the session as they were; before a document is loaded, or
    for a blank message, it answers with a fixed text and changes
    nothing at all. *)
Theorem chat_with_pdf_appends (message : str) (history : list (str * str))
    (w : world) :
  exists bot_message w',
    chat_with_pdf float_str message history w
    = (Ok (history ++ [(message, bot_message)], []), w')
    /\ preserved w w'
    /\ (if negb (is_ready (self w))
        then bot_message = not_ready_message /\ w' = w
        else match strip message with
             | [] => bot_message = empty_message /\ w' = w
             | _ => True
             end).
Proof.
  unfold chat_with_pdf, bind, get, ret.
  destruct (is_ready (self w)); simpl.
  2:{ exists not_ready_message, w.
      split; [reflexivity|]. split; [apply preserved_refl|]. now split. }
  destruct (strip message) as [|c rest].
  { exists empty_message, w.
    split; [reflexivity|]. split; [apply preserved_refl|]. now split. }
  unfold try_except.
  destruct (generate_answer message 3 w) as [[resp|e] w1] eqn:Hg;
    apply generate_answer_keeps in Hg.
  - now exists (bot_message_of float_str resp), w1.
  - now exists (u "❌ Erreur: " ++ exn_msg e), w1.
Qed.

(** X23: [upload_pdf] never raises.  Without a file it changes nothing;
    with a file it either shows the welcome message, the session then
    being ready for that file, or an error message with an empty chat
    message, the session then being not ready. *)
Theorem upload_pdf_outcomes (file : option str) (w : world) :
  exists status_message chat_message w',
    upload_pdf basename file w = (Ok (status_message, chat_message), w')
    /\ match file with
       | None =>
           status_message = no_file_message /\ chat_message = [] /\ w' = w
       | Some file_path =>
           (chat_message = welcome_message
            /\ is_ready (self w') = true
            /\ current_pdf (self w') = Some file_path)
           \/ (chat_message = []
               /\ is_ready (self w') = false
               /\ current_pdf (self w') = current_pdf (self w)
               /\ exists e,
                    status_message
                    = u "❌ Erreur lors du chargement: " ++ exn_msg e)
       end.
Proof.
  destruct file as [file_path|]; simpl.
  2:{ now exists no_file_message, [], w. }
  unfold try_except, bind, ret.
  destruct (load_pdf file_path w) as [[st|e] w1] eqn:Hl;
    apply load_pdf_cases in Hl as (_ & _ & Hl).
  - do 3 eexists. split; [reflexivity|]. left.
    destruct Hl as [(e & _ & [=] & _)|Hl].
    destruct Hl as (res & vr & vw & _ & _ & _ & _ & Hl).
    destruct Hl as [(e & _ & [=] & _)|(_ & _ & Hr & Hc)]. auto.
  - do 3 eexists. split; [reflexivity|]. right.
    split; [reflexivity|].
    destruct Hl as [(e0 & _ & _ & ->)|Hl].
    + simpl. repeat split. now exists e.
    + destruct Hl as (res & vr & vw & _ & _ & _ & _ & Hl).
      destruct Hl as [(e0 & _ & _ & Hr & Hc)|(_ & [=] & _)].
      repeat split; auto. now exists e.
Qed.

End Interface.

(** ** Instances *)

Lemma clean_text_lines_witness :
  PDFProcessor.clean_text (u "  ") = [].
Proof.
  apply (proj1 (clean_text_lines (u "  "))). vm_refl.
Defined.


Lemma extract_text_from_pdf_raises_witness :
  PDFText.extract_text_from_pdf (R := Samples.readers) true (u "broken.pdf")
  = Raise (Exn "PdfReadError" (u "EOF marker not found")).
Proof.
  apply (proj2 (extract_text_from_pdf_raises (R := Samples.readers) true
                  (u "broken.pdf") _)).
  right. split; [vm_refl|]. split; [intros _; vm_refl|vm_refl].
Defined.

Lemma extract_text_from_pdf_silent_witness :
  PDFText.extract_text_from_pdf (R := Samples.readers) true (u "blank.pdf")
  = Ok [].
Proof.
  apply (extract_text_from_pdf_silent (R := Samples.readers) (u "blank.pdf")
           [Ok (u " ")]).
  - vm_refl.
  - vm_refl.
  - constructor; [unfold PDFText.silent; vm_refl|constructor].
Defined.

Lemma process_pdf_outcomes_witness :
  exists cs,
    PDFProcessor.create_chunks PDFProcessor.default
      (PDFProcessor.clean_text Reference.sample_text) = Ok cs
    /\ PDFProcessor.process_pdf (B := Reference.backend) PDFProcessor.default
         (u "doc.pdf")
       = Ok {| PDFProcessor.raw_text := Reference.sample_text;
               PDFProcessor.cleaned_text :=
                 PDFProcessor.clean_text Reference.sample_text;
               PDFProcessor.chunks := cs;
               PDFProcessor.success := true |}.
Proof.
  apply (process_pdf_outcomes (B := Reference.backend) PDFProcessor.default
           (u "doc.pdf")).
  - discriminate.
  - vm_refl.
  - vm_refl.
Defined.

Lemma build_index_replaces_witness :
  VectorStore.index (VectorStore.self Reference.built_A)
  = Some Reference.index_A
  /\ VectorStore.chunks (VectorStore.self Reference.built_A)
     = [0%nat; 1%nat]
  /\ VectorStore.objs Reference.built_A = Reference.twins.
Proof.
  destruct (build_index_replaces (B := Reference.backend) [0%nat; 1%nat]
              Reference.store_A Reference.built_A)
    as (m & texts & rows & x & dim
        & _ & _ & _ & _ & _ & _ & Hc & _ & _ & _ & Ho & _).
  - unfold Reference.built_A. apply run_pair. vm_refl.
  - split; [vm_refl|]. split; [exact Hc|exact Ho].
Defined.

Lemma build_index_failure_witness :
  fst (VectorStore.build_index [] Reference.built_A)
  = Raise (Exn "IndexError" (u "tuple index out of range"))
  /\ VectorStore.index
       (VectorStore.self (snd (VectorStore.build_index [] Reference.built_A)))
     = Some (@VectorStore.Build_IndexFlatIP Reference.backend 2 [])
  /\ VectorStore.chunks
       (VectorStore.self (snd (VectorStore.build_index [] Reference.built_A)))
     = []
  /\ VectorStore.objs (snd (VectorStore.build_index [] Reference.built_A))
     = VectorStore.objs Reference.built_A
  /\ VectorStore.model_name
       (VectorStore.self (snd (VectorStore.build_index [] Reference.built_A)))
     = VectorStore.model_name (VectorStore.self Reference.built_A).
Proof.
  assert (Hrun : fst (VectorStore.build_index [] Reference.built_A)
                 = Raise (Exn "IndexError" (u "tuple index out of range")))
    by vm_refl.
  split; [exact Hrun|]. split; [vm_refl|].
  destruct (build_index_failure (B := Reference.backend) []
              Reference.built_A
              (snd (VectorStore.build_index [] Reference.built_A))
              (Exn "IndexError" (u "tuple index out of range")))
    as (Hc & Ho & Hn & _).
  - apply run_pair. exact Hrun.
  - split; [exact Hc|]. split; [exact Ho|exact Hn].
Defined.

Lemma search_frame_witness :
  VectorStore.index (VectorStore.self Reference.searched)
  = VectorStore.index (VectorStore.self Reference.built_A)
  /\ VectorStore.chunks (VectorStore.self Reference.searched)
     = VectorStore.chunks (VectorStore.self Reference.built_A)
  /\ exists extra,
       VectorStore.objs Reference.searched
       = VectorStore.objs Reference.built_A ++ extra.
Proof.
  destruct (search_frame (B := Reference.backend) (u "chat") 2
              Reference.built_A Reference.searched (Ok Reference.hits))
    as (Hi & Hc & _ & Ho & _).
  - unfold Reference.searched. apply run_pair. vm_refl.
  - split; [exact Hi|]. split; [exact Hc|exact Ho].
Defined.

Lemma search_total_witness :
  exists results w',
    VectorStore.search (u "chat") 2 Reference.built_A = (Ok results, w').
Proof.
  apply (search_total (B := Reference.backend) Reference.built_A (u "chat") 2
           Reference.index_A 2 [[4; 416]] [4; 416] []).
  - exact reference_contract.
  - lia.
  - vm_refl.
  - vm_compute. discriminate.
  - vm_refl.
  - vm_refl.
  - vm_refl.
  - vm_refl.
  - constructor; [vm_refl|constructor].
Defined.

Lemma save_load_round_trip_witness :
  exists fs',
    VectorStore.save_index ∅ (u "idx") Reference.built_A
    = (Ok fs', Reference.built_A)
    /\ exists w2',
         VectorStore.load_index fs' (u "idx") Reference.live_B = (Ok tt, w2')
         /\ VectorStore.index (VectorStore.self w2')
            = Some Reference.index_A
         /\ VectorStore.model_name (VectorStore.self w2')
            = VectorStore.model_name (VectorStore.self Reference.built_A).
Proof.
  destruct (save_load_round_trip (B := Reference.backend) ∅ (u "idx")
              Reference.built_A Reference.index_A)
    as (fs' & Hs & Hl).
  - vm_refl.
  - vm_refl.
  - exists fs'. split; [exact Hs|].
    destruct (Hl Reference.live_B) as (w2' & H1 & H2 & H3 & _).
    exists w2'. split; [exact H1|]. split; [exact H2|exact H3].
Defined.

Lemma load_index_missing_witness :
  VectorStore.load_index ∅ (u "idx") Reference.live_B
  = (Raise (Exn "FileNotFoundError" (u "Index non trouvé: " ++ u "idx"
                                       ++ u ".faiss")),
     Reference.live_B).
Proof.
  apply (proj1 (load_index_missing (B := Reference.backend) ∅ (u "idx")
                  Reference.live_B)).
  apply lookup_empty.
Defined.

Lemma format_sources_shape_witness :
  fst (RAGSystem.format_sources 0 [(0%nat, 5); (1%nat, 3)]
         Samples.long_world)
  = Ok Samples.long_sources
  /\ snd (RAGSystem.format_sources 0 [(0%nat, 5); (1%nat, 3)]
            Samples.long_world)
     = Samples.long_world
  /\ length Samples.long_sources = 2%nat
  /\ exists src dct t,
       Samples.long_sources !! 0%nat = Some src
       /\ RAGSystem.objs Samples.long_world !! 0%nat = Some dct
       /\ dct !! "text"%string = Some (VStr t)
       /\ RAGSystem.src_chunk_id src
          = default (VInt (0 + Z.of_nat 0)) (dct !! "chunk_id"%string)
       /\ RAGSystem.src_text src
          = (if 200 <? len t then slice t 0 200 ++ u "..." else t)
       /\ len (RAGSystem.src_text src) <= 203
       /\ RAGSystem.src_score src
          = round3 (Backend := Reference.backend) 5.
Proof.
  assert (Hrun : fst (RAGSystem.format_sources 0 [(0%nat, 5); (1%nat, 3)]
                        Samples.long_world)
                 = Ok Samples.long_sources) by vm_refl.
  split; [exact Hrun|].
  destruct (format_sources_shape (B := Reference.backend)
              [(0%nat, 5); (1%nat, 3)] 0 Samples.long_world
              Samples.long_sources
              (snd (RAGSystem.format_sources 0 [(0%nat, 5); (1%nat, 3)]
                      Samples.long_world)))
    as (Hw & Hl & Hall).
  - apply run_pair. exact Hrun.
  - split; [exact Hw|]. split; [exact Hl|].
    exact (Hall 0%nat (0%nat, 5) eq_refl).
Defined.

Lemma generate_answer_frame_witness :
  Session.preserved Reference.ready
    (snd (RAGSystem.generate_answer (u "alpha ?") 3 Reference.ready)).
Proof.
  apply (generate_answer_frame (B := Reference.backend) (u "alpha ?") 3
           Reference.ready _
           (fst (RAGSystem.generate_answer (u "alpha ?") 3 Reference.ready))).
  apply surjective_pairing.
Defined.

Lemma load_pdf_success_witness :
  RAGSystem.is_ready (RAGSystem.self Reference.ready) = true
  /\ RAGSystem.current_pdf (RAGSystem.self Reference.ready)
     = Some (u "doc.pdf")
  /\ VectorStore.index (RAGSystem.vector_store (RAGSystem.self Reference.ready))
     <> None.
Proof.
  destruct (load_pdf_success (B := Reference.backend) (u "doc.pdf")
              Reference.fresh Reference.ready
              {| RAGSystem.pdf_path := u "doc.pdf";
                 RAGSystem.nb_chunks := 1;
                 RAGSystem.stats_status := u "Prêt pour les questions" |})
    as (res & _ & _ & Hr & Hc & _ & _ & _ & Hi & _).
  - unfold Reference.ready. apply run_pair. vm_refl.
  - split; [exact Hr|]. split; [exact Hc|exact Hi].
Defined.

Lemma generate_answer_outcomes_witness :
  exists resp,
    fst (RAGSystem.generate_answer (u "alpha ?") 3 Reference.ready) = Ok resp.
Proof.
  destruct (generate_answer_outcomes (B := Reference.backend) (u "alpha ?") 3
              Reference.ready
              (snd (RAGSystem.generate_answer (u "alpha ?") 3 Reference.ready))
              (fst (RAGSystem.generate_answer (u "alpha ?") 3 Reference.ready)))
    as (resp & Hr & _).
  - apply surjective_pairing.
  - now exists resp.
Defined.
